(** * libxnd/bitmaps.c: the validity-bitmap tree of xnd containers

    A shallow embedding of [src/libxnd/bitmaps.c] and the properties of the
    bitmap tree builder, its destructor and the per-element accessors.

    - [int64_t] values are integers of [Z]; additions and multiplications are
      reduced to the 64-bit two's complement range ([wrap64]), divisions and
      remainders are the truncating ones of C ([Z.quot], [Z.rem]).
    - The allocator ([ndt_calloc], [ndt_free]) is a heap that records which
      addresses are live, how many requests were made and how many were
      refused; which requests are granted is decided by an arbitrary oracle.
    - A bitmap node owns its buffer and its child array, so the tree is a
      tree of values; every owned object carries the address it was
      allocated at.
    - A violated [assert] and an access outside an allocated object have no
      defined behaviour: they are the outcome [Undefined].
    - The error context [ctx] only receives the message of
      [ndt_memory_error]; it is left out, and the heap counts the refused
      requests instead. *)

From stdpp Require Import base numbers option list gmap sets fin_sets infinite.

Set Warnings "-register-all,-clear-no-such-hyp".

Local Open Scope Z_scope.

(** ** Machine integers *)

Definition INT64_MAX : Z := 2 ^ 63 - 1.
Definition INT64_MIN : Z := - 2 ^ 63.

Definition in_int64 (z : Z) : Prop := INT64_MIN <= z <= INT64_MAX.

(** Reduction of an integer to the range of [int64_t]. *)
Definition wrap64 (z : Z) : Z := (z + 2 ^ 63) mod 2 ^ 64 - 2 ^ 63.

Definition add64 (a b : Z) : Z := wrap64 (a + b).
Definition mul64 (a b : Z) : Z := wrap64 (a * b).

(** Storing an [int] into a [uint8_t]. *)
Definition to_uint8 (z : Z) : Z := z mod 256.

(** ** Outcomes *)

Inductive outcome (R : Type) : Type :=
  | Returns (r : R)
  | Undefined.
Arguments Returns {R} r.
Arguments Undefined {R}.

(** ** Type descriptors (ndtypes)

    [ndt_t] is declared in ndtypes.h, outside of this file.  bitmaps.c reads
    from a descriptor: its tag, [ndim], the two flags behind
    [ndt_is_optional] and [ndt_subtree_is_optional], the shape and element
    type of a [FixedDim], the result of [ndt_dtype] and the offsets of a
    concrete [VarDim], and the field types of a [Tuple] or [Record]
    ([shape] is the number of fields).  The two flags are independent
    fields of every descriptor.  Every tag without a case of its own in
    the switch of [bitmap_init] is [Other].  Only concrete types are
    embedded, so [ndt_is_concrete] holds throughout. *)

Inductive ndt_t : Type :=
  | FixedDim (opt sub : bool) (shape : Z) (type : ndt_t)
  | VarDim (opt sub : bool) (dtype : ndt_t) (offsets : list Z)
  | Tuple (opt sub : bool) (types : list ndt_t)
  | Record (opt sub : bool) (types : list ndt_t)
  | Other (opt sub : bool).

Definition ndt_is_optional (t : ndt_t) : bool :=
  match t with
  | FixedDim o _ _ _ | VarDim o _ _ _ | Tuple o _ _ | Record o _ _ | Other o _ => o
  end.

Definition ndt_subtree_is_optional (t : ndt_t) : bool :=
  match t with
  | FixedDim _ s _ _ | VarDim _ s _ _ | Tuple _ s _ | Record _ s _ | Other _ s => s
  end.

(** [t->ndim]: the number of dimensions in front of the dtype; only the
    dimension tags contribute. *)
Fixpoint ndim (t : ndt_t) : Z :=
  match t with
  | FixedDim _ _ _ t' => 1 + ndim t'
  | VarDim _ _ t' _ => 1 + ndim t'
  | _ => 0
  end.

(** [t->Concrete.VarDim.offsets[noffsets-1]]: there is no such entry when
    the array is empty. *)
Definition last_offset (offsets : list Z) : option Z :=
  offsets !! (length offsets - 1)%nat.

(** ** The heap *)

Definition ptr : Type := nat.

Record heap : Type := Heap {
  live : gset ptr;      (* addresses allocated and not freed *)
  requests : nat;       (* calls of ndt_calloc so far *)
  refused : nat         (* calls of ndt_calloc that returned NULL *)
}.

Section Bitmaps.

(** [grant k] tells whether the [k]-th allocation request is granted. *)
Variable grant : nat -> bool.

(** [ndt_calloc(nmemb, size)]: a negative [int64_t] count converts to a
    [size_t] of at least [2^63], which is never granted. *)
Definition ndt_calloc (nmemb : Z) (h : heap) : option ptr * heap :=
  if (0 <=? nmemb) && grant (requests h) then
    let p := fresh (live h) in
    (Some p, Heap ({[p]} ∪ live h) (S (requests h)) (refused h))
  else
    (None, Heap (live h) (S (requests h)) (S (refused h))).

(** [ndt_free(p)]; freeing [NULL] does nothing. *)
Definition ndt_free (p : option ptr) (h : heap) : heap :=
  match p with
  | None => h
  | Some a => Heap (live h ∖ {[a]}) (requests h) (refused h)
  end.

(** ** Bitmap nodes

    [data] and [next] are [None] for a [NULL] pointer; otherwise they hold
    the address of the object and its contents. *)
Inductive xnd_bitmap_t : Type :=
  Bitmap (data : option (ptr * list Z))
         (size : Z)
         (next : option (ptr * list xnd_bitmap_t)).

Definition data (b : xnd_bitmap_t) := let 'Bitmap d _ _ := b in d.
Definition size (b : xnd_bitmap_t) := let 'Bitmap _ s _ := b in s.
Definition next (b : xnd_bitmap_t) := let 'Bitmap _ _ n := b in n.

(** A node as [calloc] leaves it. *)
Definition zero_bitmap : xnd_bitmap_t := Bitmap None 0 None.

Definition bitmap_size (nelem : Z) : Z := Z.quot (add64 nelem 7) 8.

Definition bits_new (n : Z) (h : heap) : option (ptr * list Z) * heap :=
  let sz := bitmap_size n in
  match ndt_calloc sz h with
  | (Some p, h') => (Some (p, replicate (Z.to_nat sz) 0), h')
  | (None, h') => (None, h')
  end.

Definition bitmap_array_new (n : Z) (h : heap)
  : option (ptr * list xnd_bitmap_t) * heap :=
  match ndt_calloc n h with
  | (Some p, h') => (Some (p, replicate (Z.to_nat n) zero_bitmap), h')
  | (None, h') => (None, h')
  end.

(** ** xnd_bitmap_clear *)

(** The loop [for (i = 0; i < size; i++) clear(next + i)] over the array
    [kids]; [clear] is the recursive call. *)
Fixpoint clear_loop (clear : xnd_bitmap_t -> heap -> outcome unit * xnd_bitmap_t * heap)
    (sz i : Z) (kids : list xnd_bitmap_t) (h : heap)
  : outcome unit * list xnd_bitmap_t * heap :=
  if sz <=? i then (Returns tt, kids, h)
  else match kids with
       | [] => (Undefined, [], h)
       | k :: ks =>
           match clear k h with
           | (Returns _, k', h') =>
               let '(r, ks', h'') := clear_loop clear sz (i + 1) ks h' in
               (r, k' :: ks', h'')
           | (Undefined, k', h') => (Undefined, k' :: ks, h')
           end
       end.

Fixpoint xnd_bitmap_clear (b : xnd_bitmap_t) (h : heap)
  : outcome unit * xnd_bitmap_t * heap :=
  match b with
  | Bitmap d sz nx =>
      let h1 := ndt_free (fst <$> d) h in
      match nx with
      | None => (Returns tt, Bitmap None sz None, h1)
      | Some (p, kids) =>
          match clear_loop xnd_bitmap_clear sz 0 kids h1 with
          | (Returns _, _, h2) =>
              (Returns tt, Bitmap None sz None, ndt_free (Some p) h2)
          | (Undefined, kids', h2) =>
              (Undefined, Bitmap None sz (Some (p, kids')), h2)
          end
      end
  end.

(** ** bitmap_init *)

Definition result : Type := outcome Z * xnd_bitmap_t * heap.

(** The inner loop [for (k = 0; k < shape; k++)] of repetition [i]:
    [next = b->next + i*shape + k] is initialised from [types[k]].  The
    result [Returns (-1)] says that a recursive call failed. *)
Fixpoint init_fields (init : ndt_t -> xnd_bitmap_t -> heap -> result)
    (i shape k : Z) (types : list ndt_t) (kids : list xnd_bitmap_t) (h : heap)
  : outcome Z * list xnd_bitmap_t * heap :=
  match types with
  | [] => (Returns 0, kids, h)
  | ty :: types' =>
      let idx := add64 (mul64 i shape) k in
      match (if 0 <=? idx then kids !! Z.to_nat idx else None) with
      | None => (Undefined, kids, h)
      | Some c =>
          match init ty c h with
          | (Returns r, c', h') =>
              let kids' := <[Z.to_nat idx := c']> kids in
              if r <? 0 then (Returns (-1), kids', h')
              else init_fields init i shape (k + 1) types' kids' h'
          | (Undefined, c', h') => (Undefined, <[Z.to_nat idx := c']> kids, h')
          end
      end
  end.

(** The outer loop [for (i = 0; i < nitems; i++)], with [count] iterations
    left. *)
Fixpoint init_items
    (fields : Z -> list xnd_bitmap_t -> heap -> outcome Z * list xnd_bitmap_t * heap)
    (count : nat) (i : Z) (kids : list xnd_bitmap_t) (h : heap)
  : outcome Z * list xnd_bitmap_t * heap :=
  match count with
  | O => (Returns 0, kids, h)
  | S count' =>
      match fields i kids h with
      | (Returns r, kids', h') =>
          if r <? 0 then (Returns (-1), kids', h')
          else init_items fields count' (i + 1) kids' h'
      | (Undefined, kids', h') => (Undefined, kids', h')
      end
  end.

(** [xnd_bitmap_clear(b); return -1;] *)
Definition clear_and_fail (b : xnd_bitmap_t) (h : heap) : result :=
  match xnd_bitmap_clear b h with
  | (Returns _, b', h') => (Returns (-1), b', h')
  | (Undefined, b', h') => (Undefined, b', h')
  end.

(** The body of [case Tuple] and of [case Record], which are the same text
    up to the name of the union member. *)
Definition init_product (init : ndt_t -> xnd_bitmap_t -> heap -> result)
    (types : list ndt_t) (nitems : Z) (b : xnd_bitmap_t) (h : heap) : result :=
  let shape := Z.of_nat (length types) in
  let n := mul64 nitems shape in
  match bitmap_array_new n h with
  | (None, h1) => clear_and_fail (Bitmap (data b) (size b) None) h1
  | (Some (p, kids), h1) =>
      match init_items (fun i => init_fields init i shape 0 types)
                       (Z.to_nat nitems) 0 kids h1 with
      | (Returns r, kids', h2) =>
          if r <? 0 then clear_and_fail (Bitmap (data b) n (Some (p, kids'))) h2
          else (Returns 0, Bitmap (data b) n (Some (p, kids')), h2)
      | (Undefined, kids', h2) =>
          (Undefined, Bitmap (data b) n (Some (p, kids')), h2)
      end
  end.

(** The three assertions on [b]. *)
Definition is_zero_bitmap (b : xnd_bitmap_t) : bool :=
  match b with
  | Bitmap None 0 None => true
  | _ => false
  end.

Definition is_null {A : Type} (p : option A) : bool :=
  match p with
  | None => true
  | Some _ => false
  end.

Fixpoint bitmap_init (t : ndt_t) (nitems : Z) (b : xnd_bitmap_t) (h : heap)
  {struct t} : result :=
  if negb (is_zero_bitmap b) then (Undefined, b, h)
  else
    let leaf := (ndim t =? 0) && ndt_is_optional t in
    let '(d, h1) := if leaf then bits_new nitems h else (data b, h) in
    let b1 := Bitmap d (size b) (next b) in
    if leaf && is_null d then (Returns (-1), b1, h1)
    else if negb (ndt_subtree_is_optional t) then (Returns 0, b1, h1)
    else
      match t with
      | FixedDim _ _ shape type =>
          bitmap_init type (mul64 nitems shape) b1 h1
      | VarDim _ _ dtype offsets =>
          match last_offset offsets with
          | Some n => bitmap_init dtype n b1 h1
          | None => (Undefined, b1, h1)
          end
      | Tuple _ _ types =>
          init_product (fun ty => bitmap_init ty 1) types nitems b1 h1
      | Record _ _ types =>
          init_product (fun ty => bitmap_init ty 1) types nitems b1 h1
      | Other _ _ => (Returns 0, b1, h1)
      end.

Definition xnd_bitmap_init (b : xnd_bitmap_t) (t : ndt_t) (h : heap) : result :=
  bitmap_init t 1 b h.

End Bitmaps.

(** ** The accessors

    [xnd_t] is declared in xnd.h; the accessors read its fields [bitmap]
    (a copy of the node for the position, sharing the node's buffer),
    [index] and [type]. *)

Record xnd_t : Type := Xnd {
  bitmap : xnd_bitmap_t;
  index : Z;
  type : ndt_t
}.

(** The same position at another index. *)
Definition at_index (x : xnd_t) (j : Z) : xnd_t := Xnd (bitmap x) j (type x).

(** C's [!]. *)
Definition c_not (v : Z) : Z := if v =? 0 then 1 else 0.

(** C's reading of an [int] as a condition. *)
Definition c_true (v : Z) : bool := negb (v =? 0).

(** [x->bitmap.data[k]], for [k] not negative. *)
Definition read_byte (b : xnd_bitmap_t) (k : Z) : option Z :=
  match data b with
  | None => None
  | Some (_, bytes) => bytes !! Z.to_nat k
  end.

(** [x->bitmap.data[k] = v]: the node with the byte replaced. *)
Definition write_byte (b : xnd_bitmap_t) (k : Z) (v : Z) : xnd_bitmap_t :=
  match b with
  | Bitmap (Some (p, bytes)) sz nx =>
      Bitmap (Some (p, <[Z.to_nat k := to_uint8 v]> bytes)) sz nx
  | _ => b
  end.

Definition xnd_set_valid (x : xnd_t) : outcome xnd_t :=
  let t := type x in
  let n := index x in
  if negb (ndt_is_optional t) then Undefined
  else if negb (0 <=? n) then Undefined
  else
    match read_byte (bitmap x) (Z.quot n 8) with
    | None => Undefined
    | Some v =>
        Returns (Xnd (write_byte (bitmap x) (Z.quot n 8)
                                 (Z.lor v (Z.shiftl 1 (Z.rem n 8))))
                     (index x) (type x))
    end.

Definition _xnd_is_valid (x : xnd_t) : outcome Z :=
  let t := type x in
  let n := index x in
  if negb (ndt_is_optional t) then Undefined
  else if negb (0 <=? n) then Undefined
  else
    match read_byte (bitmap x) (Z.quot n 8) with
    | None => Undefined
    | Some v => Returns (Z.land v (Z.shiftl 1 (Z.rem n 8)))
    end.

Definition xnd_is_valid (x : xnd_t) : outcome Z :=
  if negb (ndt_is_optional (type x)) then Returns 1
  else _xnd_is_valid x.

Definition xnd_is_na (x : xnd_t) : outcome Z :=
  if negb (ndt_is_optional (type x)) then Returns 0
  else
    match _xnd_is_valid x with
    | Returns v => Returns (c_not v)
    | Undefined => Undefined
    end.

(** A run of [xnd_set_valid] calls on the same node, at the indices [js]. *)
Fixpoint set_valid_all (js : list Z) (x : xnd_t) : outcome xnd_t :=
  match js with
  | [] => Returns x
  | j :: js' =>
      match xnd_set_valid (at_index x j) with
      | Returns x' => set_valid_all js' x'
      | Undefined => Undefined
      end
  end.

(** The index [n] lies inside the leaf buffer of the node. *)
Definition covered (b : xnd_bitmap_t) (n : Z) : Prop :=
  0 <= n /\ exists p bytes, data b = Some (p, bytes) /\ Z.quot n 8 < Z.of_nat (length bytes).

(** Bit [m] of byte [k] of the leaf buffer ([false] outside the buffer). *)
Definition buffer_bit (b : xnd_bitmap_t) (k m : Z) : bool :=
  match read_byte b k with
  | Some v => Z.testbit v m
  | None => false
  end.

(** ** The size calculator as the specification words it *)

(** The least integer not below [n / 8]. *)
Definition ceil_div8 (n : Z) : Z := - ((- n) / 8).

(** ** Ownership, well-formed nodes and the three states *)

(** The addresses of everything a node owns, at any depth. *)
Fixpoint owned (b : xnd_bitmap_t) : gset ptr :=
  match b with
  | Bitmap d _ nx =>
      match d with
      | Some (p, _) => {[p]}
      | None => ∅
      end ∪
      match nx with
      | Some (p, kids) => {[p]} ∪ ⋃ (owned <$> kids)
      | None => ∅
      end
  end.

Definition owned_list (kids : list xnd_bitmap_t) : gset ptr := ⋃ (owned <$> kids).

(** [size] is the length of the child array wherever there is one. *)
Fixpoint bitmap_wf (b : xnd_bitmap_t) : Prop :=
  match b with
  | Bitmap _ sz nx =>
      match nx with
      | Some (_, kids) =>
          sz = Z.of_nat (length kids) /\
          (fix all (ks : list xnd_bitmap_t) : Prop :=
             match ks with
             | [] => True
             | k :: ks' => bitmap_wf k /\ all ks'
             end) kids
      | None => True
      end
  end.

Definition is_empty (b : xnd_bitmap_t) : Prop := data b = None /\ next b = None.
Definition is_leaf (b : xnd_bitmap_t) : Prop := is_Some (data b) /\ next b = None.
Definition is_branch (b : xnd_bitmap_t) : Prop := data b = None /\ is_Some (next b).

Definition exactly_one_state (b : xnd_bitmap_t) : Prop :=
  (is_empty b /\ ~ is_leaf b /\ ~ is_branch b) \/
  (~ is_empty b /\ is_leaf b /\ ~ is_branch b) \/
  (~ is_empty b /\ ~ is_leaf b /\ is_branch b).

(** A property of every node of a tree. *)
Fixpoint every_node (P : xnd_bitmap_t -> Prop) (b : xnd_bitmap_t) : Prop :=
  P b /\
  match b with
  | Bitmap _ _ (Some (_, kids)) =>
      (fix all (ks : list xnd_bitmap_t) : Prop :=
         match ks with
         | [] => True
         | k :: ks' => every_node P k /\ all ks'
         end) kids
  | _ => True
  end.

(** The type at which the delegation through [FixedDim] and [VarDim] stops. *)
Fixpoint delegate (t : ndt_t) : ndt_t :=
  match t with
  | FixedDim _ true _ t' => delegate t'
  | VarDim _ true t' _ => delegate t'
  | _ => t
  end.

(** An optional [Tuple] or [Record] with an optional below it. *)
Definition optional_product (t : ndt_t) : bool :=
  match t with
  | Tuple o s _ | Record o s _ => o && s
  | _ => false
  end.

Fixpoint no_optional_product (t : ndt_t) : bool :=
  negb (optional_product t) &&
  match t with
  | FixedDim _ _ _ t' => no_optional_product t'
  | VarDim _ _ t' _ => no_optional_product t'
  | Tuple _ _ ts | Record _ _ ts => forallb no_optional_product ts
  | Other _ _ => true
  end.

(** [c] is what a successful [init] makes of a zeroed node for the type
    [ty]. *)
Definition made (init : ndt_t -> xnd_bitmap_t -> heap -> result)
    (ty : ndt_t) (c : xnd_bitmap_t) : Prop :=
  exists h1 h2, init ty zero_bitmap h1 = (Returns 0, c, h2).

(** [c] is what a successful [bitmap_init] with [nitems = 1] makes of a
    zeroed node for the type [ty]. *)
Definition built (grant : nat -> bool) (ty : ndt_t) (c : xnd_bitmap_t) : Prop :=
  made (fun ty => bitmap_init grant ty 1) ty c.

(** The child array while the loops run: the first [m] children are made
    from the field types, repetition after repetition, and the others are
    still zeroed. *)
Definition filled (init : ndt_t -> xnd_bitmap_t -> heap -> result)
    (types : list ndt_t) (m : nat) (kids : list xnd_bitmap_t) : Prop :=
  (forall rep field ty,
     (rep * length types + field < m)%nat -> types !! field = Some ty ->
     exists c, kids !! (rep * length types + field)%nat = Some c /\ made init ty c) /\
  (forall q, (m <= q)%nat -> (q < length kids)%nat -> kids !! q = Some zero_bitmap).

(** ** Invariants of the builder

    [post L0 R0 r] relates the result [r] of a build to the live set [L0]
    and the number [R0] of refused requests before it: the node is
    well formed, what it owns is new and is all that was added to the live
    set, and the status tells whether a request was refused. *)
Definition post (L0 : gset ptr) (R0 : nat) (r : result) : Prop :=
  let '(st, b', h') := r in
  bitmap_wf b' /\ owned b' ## L0 /\ live h' = L0 ∪ owned b' /\
  match st with
  | Returns v =>
      (v = 0 /\ refused h' = R0) \/
      (v = -1 /\ (R0 < refused h')%nat /\ data b' = None /\ next b' = None)
  | Undefined => refused h' = R0
  end.

(** The state of the child array inside the loops of [init_product]. *)
Definition kids_inv (base : gset ptr) (N : nat)
    (kids : list xnd_bitmap_t) (h : heap) : Prop :=
  Forall bitmap_wf kids /\ owned_list kids ## base /\
  live h = base ∪ owned_list kids /\ length kids = N.

Definition loop_post (base : gset ptr) (N : nat) (R0 : nat)
    (r : outcome Z * list xnd_bitmap_t * heap) : Prop :=
  let '(st, kids', h') := r in
  kids_inv base N kids' h' /\
  match st with
  | Returns v => (v = 0 /\ refused h' = R0) \/ (v = -1 /\ (R0 < refused h')%nat)
  | Undefined => refused h' = R0
  end.

(** What the loops need of the recursive call. *)
Definition init_ok (init : ndt_t -> xnd_bitmap_t -> heap -> result)
    (ty : ndt_t) : Prop :=
  (forall h, post (live h) (refused h) (init ty zero_bitmap h)) /\
  (forall c h, is_zero_bitmap c = false -> init ty c h = (Undefined, c, h)).

(** ** Sample positions

    A leaf for three elements, as [bitmap_init] makes it for three
    repetitions of an optional scalar, seen from index 1; and the same leaf
    once index 1 has been marked valid. *)
Definition leaf3_at1 : xnd_t :=
  Xnd (Bitmap (Some (0%nat, [0])) 0 None) 1 (Other true false).

Definition leaf3_valid1 : xnd_t :=
  Xnd (Bitmap (Some (0%nat, [2])) 0 None) 1 (Other true false).

(** ** Sample types, oracles and runs *)

Definition always_grant : nat -> bool := fun _ => true.

(** Every request is granted but the one numbered [k]. *)
Definition refuse_at (k : nat) : nat -> bool := fun n => negb (n =? k)%nat.

Definition empty_heap : heap := Heap ∅ 0 0.

(** An optional scalar: the type itself is optional, nothing below it. *)
Definition optional_scalar : ndt_t := Other true false.

Definition plain_scalar : ndt_t := Other false false.

(** An optional tuple of an optional and a plain scalar. *)
Definition optional_pair : ndt_t := Tuple true true [optional_scalar; plain_scalar].

(** A tuple, not optional itself, of an optional and a plain scalar. *)
Definition plain_pair : ndt_t := Tuple false true [optional_scalar; plain_scalar].

(** The build for [optional_pair] in which the leaf of the first field is
    refused, after the leaf of the tuple and the child array were granted. *)
Definition rollback_run : result :=
  xnd_bitmap_init (refuse_at 2) zero_bitmap optional_pair empty_heap.

Definition optional_pair_run : result :=
  xnd_bitmap_init always_grant zero_bitmap optional_pair empty_heap.

Definition plain_pair_run : result :=
  bitmap_init always_grant plain_pair 2 zero_bitmap empty_heap.

Definition fixed3_run : result :=
  bitmap_init always_grant (FixedDim false true 3 optional_scalar) 1
              zero_bitmap empty_heap.

Definition optional_scalar_run : result :=
  bitmap_init always_grant optional_scalar 1 zero_bitmap empty_heap.

(** A run that ends with 0 or with no defined behaviour saw no refused
    request, and a run that ends with -1 saw exactly one; [R0] is the number
    of refused requests before the run. *)
Definition one_refusal {A : Type} (R0 : nat) (r : outcome Z * A * heap) : Prop :=
  match r with
  | (Returns v, _, h') =>
      (v = 0 /\ refused h' = R0) \/ (v = -1 /\ refused h' = S R0)
  | (Undefined, _, h') => refused h' = R0
  end.

(** ** The flags of a descriptor, and the addresses of a tree as a list *)

(** Modelled from the spec: the subtree flag is computed by ndtypes, which
    is not under src/.  The specification defines subtree-has-optional as
    true if the node itself or anything nested beneath it is optional, so an
    optional type has the flag set.  Only this consequence for the type at
    hand is needed. *)
Definition flags_inclusive (t : ndt_t) : Prop :=
  ndt_is_optional t = true -> ndt_subtree_is_optional t = true.

(** The addresses of everything a node owns, one entry for each pointer
    held in the tree: an address held twice is listed twice. *)
Fixpoint owned_addrs (b : xnd_bitmap_t) : list ptr :=
  match b with
  | Bitmap d _ nx =>
      match d with
      | Some (p, _) => [p]
      | None => []
      end ++
      match nx with
      | Some (p, kids) => p :: concat (owned_addrs <$> kids)
      | None => []
      end
  end.

(** ** Stacks of dimensions

    A dimension in front of a type, with the subtree flag set: a [FixedDim]
    with its shape, or a [VarDim] whose offsets end in [total]. *)
Inductive dim : Type :=
  | Fixed (opt : bool) (shape : Z)
  | Var (opt : bool) (pre : list Z) (total : Z).

Definition dim_type (d : dim) (t : ndt_t) : ndt_t :=
  match d with
  | Fixed o shape => FixedDim o true shape t
  | Var o pre total => VarDim o true t (pre ++ [total])
  end.

(** The dimensions [ds], outermost first, in front of [t]. *)
Definition dims_type (ds : list dim) (t : ndt_t) : ndt_t := foldr dim_type t ds.

(** The number of items one dimension hands to its element type. *)
Definition dim_count (n : Z) (d : dim) : Z :=
  match d with
  | Fixed _ shape => mul64 n shape
  | Var _ _ total => total
  end.

Definition dims_count (ds : list dim) (n : Z) : Z := fold_left dim_count ds n.

(** The build for two repetitions of [plain_pair] in which the leaf of the
    second repetition is refused, after the child array and the leaf of the
    first repetition were granted. *)
Definition failed_pair_run : result :=
  bitmap_init (refuse_at 2) plain_pair 2 zero_bitmap empty_heap.

(** * Properties *)

(** ** Machine arithmetic *)

Lemma wrap64_exact z : in_int64 z -> wrap64 z = z.
Proof.
  unfold in_int64, INT64_MIN, INT64_MAX, wrap64. intros Hz.
  rewrite Z.mod_small by lia. lia.
Qed.

Lemma wrap64_range z : in_int64 (wrap64 z).
Proof.
  unfold in_int64, INT64_MIN, INT64_MAX, wrap64.
  pose proof (Z.mod_pos_bound (z + 2 ^ 63) (2 ^ 64)). lia.
Qed.

Lemma mul64_exact a b : in_int64 (a * b) -> mul64 a b = a * b.
Proof. apply wrap64_exact. Qed.

Lemma add64_exact a b : in_int64 (a + b) -> add64 a b = a + b.
Proof. apply wrap64_exact. Qed.

Lemma ndim_nonneg t : 0 <= ndim t.
Proof. induction t; simpl; lia. Qed.

(** ** Bits of a byte *)

Lemma land_bit v k :
  0 <= k -> Z.land v (Z.shiftl 1 k) = if Z.testbit v k then 2 ^ k else 0.
Proof.
  intros Hk. rewrite Z.shiftl_1_l. apply Z.bits_inj'. intros n Hn.
  rewrite Z.land_spec, Z.pow2_bits_eqb by lia.
  destruct (Z.eqb_spec k n) as [->|Hne].
  - destruct (Z.testbit v n); simpl.
    + rewrite Z.pow2_bits_eqb by lia. symmetry. apply Z.eqb_refl.
    + now rewrite Z.bits_0.
  - rewrite andb_false_r. destruct (Z.testbit v k).
    + rewrite Z.pow2_bits_eqb by lia. symmetry. now apply Z.eqb_neq.
    + now rewrite Z.bits_0.
Qed.

Lemma to_uint8_set_bit v k m :
  0 <= k < 8 -> 0 <= m < 8 ->
  Z.testbit (to_uint8 (Z.lor v (Z.shiftl 1 k))) m = Z.testbit v m || (m =? k).
Proof.
  intros Hk Hm. unfold to_uint8. change 256 with (2 ^ 8).
  rewrite Z.mod_pow2_bits_low by lia.
  rewrite Z.lor_spec, Z.shiftl_1_l, Z.pow2_bits_eqb by lia.
  now rewrite (Z.eqb_sym k m).
Qed.

Lemma quot8_nonneg n : 0 <= n -> Z.quot n 8 = n / 8.
Proof. intros. apply Z.quot_div_nonneg; lia. Qed.

Lemma rem8_nonneg n : 0 <= n -> Z.rem n 8 = n mod 8.
Proof. intros. apply Z.rem_mod_nonneg; lia. Qed.

(** ** The accessors on the bits of the buffer *)

Lemma read_write_byte b k k' v :
  0 <= k -> 0 <= k' -> is_Some (read_byte b k) ->
  read_byte (write_byte b k v) k' =
    if k' =? k then Some (to_uint8 v) else read_byte b k'.
Proof.
  intros Hk Hk' [w Hw]. destruct b as [[[p bytes]|] sz nx]; [|discriminate].
  unfold read_byte in *. simpl in *.
  destruct (Z.eqb_spec k' k) as [->|Hne].
  - apply list_lookup_insert_eq. now apply lookup_lt_Some in Hw.
  - apply list_lookup_insert_ne. lia.
Qed.

Lemma _xnd_is_valid_bit x :
  ndt_is_optional (type x) = true -> covered (bitmap x) (index x) ->
  _xnd_is_valid x =
    Returns (if buffer_bit (bitmap x) (index x / 8) (index x mod 8)
             then 2 ^ (index x mod 8) else 0).
Proof.
  intros Ho (Hn & p & bytes & Hd & Hlt). unfold _xnd_is_valid, buffer_bit.
  rewrite Ho. simpl. destruct (Z.leb_spec 0 (index x)); [simpl|lia].
  rewrite quot8_nonneg, rem8_nonneg in * by lia.
  unfold read_byte. rewrite Hd.
  assert (Hq : 0 <= index x / 8) by (apply Z.div_pos; lia).
  destruct (lookup_lt_is_Some_2 bytes (Z.to_nat (index x / 8))) as [v Hv]; [lia|].
  rewrite Hv. f_equal. apply land_bit. apply Z.mod_pos_bound. lia.
Qed.

Lemma xnd_set_valid_defined x :
  ndt_is_optional (type x) = true -> covered (bitmap x) (index x) ->
  exists v, read_byte (bitmap x) (index x / 8) = Some v /\
    xnd_set_valid x =
      Returns (Xnd (write_byte (bitmap x) (index x / 8)
                     (Z.lor v (Z.shiftl 1 (index x mod 8))))
                   (index x) (type x)).
Proof.
  intros Ho (Hn & p & bytes & Hd & Hlt). unfold xnd_set_valid.
  rewrite Ho. simpl. destruct (Z.leb_spec 0 (index x)); [simpl|lia].
  rewrite quot8_nonneg, rem8_nonneg in * by lia.
  unfold read_byte. rewrite Hd.
  assert (Hq : 0 <= index x / 8) by (apply Z.div_pos; lia).
  destruct (lookup_lt_is_Some_2 bytes (Z.to_nat (index x / 8))) as [v Hv]; [lia|].
  rewrite Hv. eauto.
Qed.

(** What a defined [xnd_set_valid] does to every bit of the buffer. *)
Lemma xnd_set_valid_bits x x' :
  ndt_is_optional (type x) = true -> covered (bitmap x) (index x) ->
  xnd_set_valid x = Returns x' ->
  type x' = type x /\ index x' = index x /\
  (forall n, covered (bitmap x') n <-> covered (bitmap x) n) /\
  forall k m, 0 <= k -> 0 <= m < 8 ->
    buffer_bit (bitmap x') k m =
      buffer_bit (bitmap x) k m || ((k =? index x / 8) && (m =? index x mod 8)).
Proof.
  intros Ho Hc Hs. destruct (xnd_set_valid_defined x Ho Hc) as (v & Hv & Hs').
  rewrite Hs in Hs'. injection Hs' as ->. simpl.
  destruct Hc as (Hn & p & bytes & Hd & Hlt).
  assert (Hq : 0 <= index x / 8) by (apply Z.div_pos; lia).
  assert (Hr : 0 <= index x mod 8 < 8) by (apply Z.mod_pos_bound; lia).
  split; [reflexivity|]. split; [reflexivity|]. split.
  - intros n. unfold covered. destruct (bitmap x) as [d sz nx]. simpl in *.
    subst d. simpl. split; intros (H0 & q & bs & Hq' & Hl); split; try assumption.
    + injection Hq' as <- <-. rewrite length_insert in Hl. eauto.
    + eexists _, _. split; [reflexivity|]. rewrite length_insert.
      injection Hq' as <- <-. assumption.
  - intros k m Hk Hm. unfold buffer_bit.
    rewrite read_write_byte by (try lia; rewrite Hv; eauto).
    destruct (Z.eqb_spec k (index x / 8)) as [->|Hne]; simpl.
    + rewrite Hv. apply to_uint8_set_bit; lia.
    + now rewrite orb_false_r.
Qed.

Lemma xnd_is_valid_bit x :
  ndt_is_optional (type x) = true -> covered (bitmap x) (index x) ->
  exists v, xnd_is_valid x = Returns v /\
    c_true v = buffer_bit (bitmap x) (index x / 8) (index x mod 8).
Proof.
  intros Ho Hc. unfold xnd_is_valid. rewrite Ho. simpl.
  rewrite _xnd_is_valid_bit by assumption. eexists. split; [reflexivity|].
  destruct (buffer_bit _ _ _); [|reflexivity].
  unfold c_true. apply negb_true_iff, Z.eqb_neq.
  apply Z.pow_nonzero; [lia|]. destruct Hc. apply Z.mod_pos_bound. lia.
Qed.

Lemma c_true_not v : c_true (c_not v) = negb (c_true v).
Proof. unfold c_not, c_true. now destruct (Z.eqb_spec v 0). Qed.

(** C7: at an optional position with a leaf buffer covering the index,
    [xnd_is_na] returns C's negation of what [xnd_is_valid] returns, so as
    truth values the two are complements; at a position whose type is not
    optional [xnd_is_valid] returns 1 and [xnd_is_na] returns 0 whatever the
    bitmap node and the index are (no buffer is read). *)
Theorem xnd_is_na_complement (x : xnd_t) :
  (ndt_is_optional (type x) = true -> covered (bitmap x) (index x) ->
   exists v, xnd_is_valid x = Returns v /\ xnd_is_na x = Returns (c_not v) /\
             c_true (c_not v) = negb (c_true v)) /\
  (ndt_is_optional (type x) = false ->
   xnd_is_valid x = Returns 1 /\ xnd_is_na x = Returns 0).
Proof.
  split.
  - intros Ho Hc. unfold xnd_is_valid, xnd_is_na. rewrite Ho. simpl.
    rewrite _xnd_is_valid_bit by assumption. eexists. split; [reflexivity|].
    split; [reflexivity|]. apply c_true_not.
  - intros Ho. unfold xnd_is_valid, xnd_is_na. now rewrite Ho.
Qed.

Lemma xnd_is_na_complement_witness :
  (exists v, xnd_is_valid (Xnd (Bitmap (Some (0%nat, [5])) 0 None) 2 (Other true false))
               = Returns v /\
             xnd_is_na (Xnd (Bitmap (Some (0%nat, [5])) 0 None) 2 (Other true false))
               = Returns (c_not v) /\
             c_true (c_not v) = negb (c_true v)) /\
  (xnd_is_valid (Xnd zero_bitmap (-3) (Other false false)) = Returns 1 /\
   xnd_is_na (Xnd zero_bitmap (-3) (Other false false)) = Returns 0).
Proof.
  split.
  - apply (proj1 (xnd_is_na_complement
                    (Xnd (Bitmap (Some (0%nat, [5])) 0 None) 2 (Other true false)))).
    + reflexivity.
    + split; [simpl; lia|]. exists 0%nat, [5]. split; [reflexivity|]. reflexivity.
  - apply (proj2 (xnd_is_na_complement (Xnd zero_bitmap (-3) (Other false false)))).
    reflexivity.
Defined.

(** C8: at an optional position whose index is covered by the leaf buffer,
    [xnd_set_valid] is defined, [xnd_is_valid] at that index then returns
    true, bit [index % 8] of byte [index / 8] is set, every other bit of
    the buffer keeps its value, and so does [xnd_is_valid] at every other
    index. *)
Theorem xnd_set_valid_round_trip (x : xnd_t) :
  ndt_is_optional (type x) = true -> covered (bitmap x) (index x) ->
  exists x', xnd_set_valid x = Returns x' /\
    (exists v, xnd_is_valid x' = Returns v /\ c_true v = true) /\
    buffer_bit (bitmap x') (index x / 8) (index x mod 8) = true /\
    (forall k m, 0 <= k -> 0 <= m < 8 -> 8 * k + m <> index x ->
       buffer_bit (bitmap x') k m = buffer_bit (bitmap x) k m) /\
    (forall j, j <> index x ->
       xnd_is_valid (at_index x' j) = xnd_is_valid (at_index x j)).
Proof.
  intros Ho Hc. destruct (xnd_set_valid_defined x Ho Hc) as (v & Hv & Hs).
  eexists. split; [exact Hs|].
  destruct (xnd_set_valid_bits x _ Ho Hc Hs) as (Ht & Hi & Hcov & Hbits).
  set (x' := Xnd _ _ _) in *.
  assert (Hn : 0 <= index x) by apply Hc.
  assert (Hq : 0 <= index x / 8) by (apply Z.div_pos; lia).
  assert (Hr : 0 <= index x mod 8 < 8) by (apply Z.mod_pos_bound; lia).
  assert (Hset : buffer_bit (bitmap x') (index x / 8) (index x mod 8) = true).
  { rewrite Hbits by lia. rewrite !Z.eqb_refl. apply orb_true_r. }
  split; [|split; [exact Hset|split]].
  - destruct (xnd_is_valid_bit x') as (w & Hw & Hw').
    + now rewrite Ht.
    + apply Hcov. now rewrite Hi.
    + exists w. split; [exact Hw|]. rewrite Hw', Hi. exact Hset.
  - intros k m Hk Hm Hne. rewrite Hbits by lia.
    destruct (Z.eqb_spec k (index x / 8)) as [->|]; simpl; [|apply orb_false_r].
    destruct (Z.eqb_spec m (index x mod 8)) as [->|]; simpl; [|apply orb_false_r].
    exfalso. apply Hne. symmetry. apply Z.div_mod. lia.
  - intros j Hj. unfold xnd_is_valid, _xnd_is_valid, at_index, x'. simpl.
    rewrite Ho. simpl.
    destruct (Z.leb_spec 0 j) as [Hj0|]; simpl; [|reflexivity].
    rewrite quot8_nonneg, rem8_nonneg by lia.
    assert (Hjq : 0 <= j / 8) by (apply Z.div_pos; lia).
    assert (Hjr : 0 <= j mod 8 < 8) by (apply Z.mod_pos_bound; lia).
    rewrite read_write_byte by (try lia; rewrite Hv; eauto).
    destruct (Z.eqb_spec (j / 8) (index x / 8)) as [Heq|]; [|reflexivity].
    rewrite Heq, Hv. f_equal. rewrite !land_bit by lia.
    rewrite to_uint8_set_bit by lia.
    destruct (Z.eqb_spec (j mod 8) (index x mod 8)) as [Heq'|].
    + exfalso. apply Hj. rewrite (Z.div_mod j 8), (Z.div_mod (index x) 8) by lia.
      now rewrite Heq, Heq'.
    + now rewrite orb_false_r.
Qed.

Lemma xnd_set_valid_round_trip_witness :
  exists x', xnd_set_valid leaf3_at1 = Returns x' /\
    (exists v, xnd_is_valid x' = Returns v /\ c_true v = true) /\
    buffer_bit (bitmap x') (index leaf3_at1 / 8) (index leaf3_at1 mod 8) = true /\
    (forall k m, 0 <= k -> 0 <= m < 8 -> 8 * k + m <> index leaf3_at1 ->
       buffer_bit (bitmap x') k m = buffer_bit (bitmap leaf3_at1) k m) /\
    (forall j, j <> index leaf3_at1 ->
       xnd_is_valid (at_index x' j) = xnd_is_valid (at_index leaf3_at1 j)).
Proof.
  apply (xnd_set_valid_round_trip leaf3_at1).
  - reflexivity.
  - split; [simpl; lia|]. exists 0%nat, [0]. split; reflexivity.
Defined.

(** C10: [xnd_set_valid] only turns bits on.  With every index of a run
    of [xnd_set_valid] calls covered by the leaf buffer, the run is defined,
    every bit of the buffer that was set before is set after it, and
    [xnd_is_valid] at an index where it returned true still returns true. *)
Theorem validity_monotone (js : list Z) (x : xnd_t) (i : Z) :
  ndt_is_optional (type x) = true ->
  Forall (covered (bitmap x)) js ->
  covered (bitmap x) i ->
  (exists v, xnd_is_valid (at_index x i) = Returns v /\ c_true v = true) ->
  exists x', set_valid_all js x = Returns x' /\
    (exists v', xnd_is_valid (at_index x' i) = Returns v' /\ c_true v' = true) /\
    (forall k m, 0 <= k -> 0 <= m < 8 ->
       buffer_bit (bitmap x) k m = true -> buffer_bit (bitmap x') k m = true).
Proof.
  revert x. induction js as [|j js IH]; intros x Ho Hjs Hi Hv.
  - exists x. split; [reflexivity|]. split; [exact Hv|]. auto.
  - apply Forall_cons in Hjs as [Hj Hjs]. simpl.
    destruct (xnd_set_valid_defined (at_index x j) Ho Hj) as (w & _ & Hs).
    destruct (xnd_set_valid_bits (at_index x j) _ Ho Hj Hs) as (Ht & _ & Hcov & Hbits).
    rewrite Hs. set (x1 := Xnd _ _ _) in *. simpl in Ht, Hcov, Hbits.
    assert (Hi0 : 0 <= i) by apply Hi.
    assert (Hq : 0 <= i / 8) by (apply Z.div_pos; lia).
    assert (Hr : 0 <= i mod 8 < 8) by (apply Z.mod_pos_bound; lia).
    destruct (IH x1) as (x' & Hx' & Hv' & Hmono).
    + exact Ho.
    + eapply Forall_impl; [exact Hjs|]. intros n Hn. now apply Hcov.
    + now apply Hcov.
    + destruct Hv as (v & Hv & Hvt).
      destruct (xnd_is_valid_bit (at_index x i) Ho Hi) as (v0 & Hv0 & Hb).
      rewrite Hv in Hv0. injection Hv0 as <-. simpl in Hb.
      destruct (xnd_is_valid_bit (at_index x1 i)) as (v1 & Hv1 & Hb1).
      * exact Ho.
      * simpl. now apply Hcov.
      * exists v1. split; [exact Hv1|]. simpl in Hb1.
        rewrite Hb1, Hbits by lia. rewrite <- Hb, Hvt. reflexivity.
    + exists x'. split; [exact Hx'|]. split; [exact Hv'|].
      intros k m Hk Hm Hb. apply Hmono; [lia..|].
      rewrite Hbits by lia. now rewrite Hb.
Qed.

Lemma validity_monotone_witness :
  exists x', set_valid_all [0; 2; 1] leaf3_valid1 = Returns x' /\
    (exists v', xnd_is_valid (at_index x' 1) = Returns v' /\ c_true v' = true) /\
    (forall k m, 0 <= k -> 0 <= m < 8 ->
       buffer_bit (bitmap leaf3_valid1) k m = true -> buffer_bit (bitmap x') k m = true).
Proof.
  apply (validity_monotone [0; 2; 1] leaf3_valid1 1).
  - reflexivity.
  - repeat (apply List.Forall_cons;
            [split; [simpl; lia | exists 0%nat, [2]; split; reflexivity] |]).
    apply List.Forall_nil.
  - split; [lia|]. exists 0%nat, [2]. split; reflexivity.
  - exists 2. split; reflexivity.
Defined.

(** ** Induction over types and over bitmap trees *)

Lemma ndt_ind' (P : ndt_t -> Prop) :
  (forall o s shape t, P t -> P (FixedDim o s shape t)) ->
  (forall o s t offsets, P t -> P (VarDim o s t offsets)) ->
  (forall o s ts, Forall P ts -> P (Tuple o s ts)) ->
  (forall o s ts, Forall P ts -> P (Record o s ts)) ->
  (forall o s, P (Other o s)) ->
  forall t, P t.
Proof.
  intros HF HV HT HR HO. fix IH 1. intros [o s shape t|o s t offs|o s ts|o s ts|o s].
  - apply HF, IH.
  - apply HV, IH.
  - apply HT. induction ts as [|t ts IHts]; constructor; [apply IH|apply IHts].
  - apply HR. induction ts as [|t ts IHts]; constructor; [apply IH|apply IHts].
  - apply HO.
Qed.

Lemma bitmap_ind' (P : xnd_bitmap_t -> Prop) :
  (forall d sz, P (Bitmap d sz None)) ->
  (forall d sz p kids, Forall P kids -> P (Bitmap d sz (Some (p, kids)))) ->
  forall b, P b.
Proof.
  intros HN HS. fix IH 1. intros [d sz [[p kids]|]]; [|apply HN].
  apply HS. induction kids as [|k ks IHks]; constructor; [apply IH|apply IHks].
Qed.

Lemma bitmap_wf_branch d sz p kids :
  bitmap_wf (Bitmap d sz (Some (p, kids))) <->
  sz = Z.of_nat (length kids) /\ Forall bitmap_wf kids.
Proof.
  simpl. apply and_iff_compat_l.
  induction kids as [|k ks IH]; [split; [constructor | exact (fun _ => I)]|].
  rewrite Forall_cons, IH. reflexivity.
Qed.

Lemma every_node_branch P d sz p kids :
  every_node P (Bitmap d sz (Some (p, kids))) <->
  P (Bitmap d sz (Some (p, kids))) /\ Forall (every_node P) kids.
Proof.
  simpl. apply and_iff_compat_l.
  induction kids as [|k ks IH]; [split; [constructor | exact (fun _ => I)]|].
  rewrite Forall_cons, IH. reflexivity.
Qed.

Arguments owned_list : simpl never.

Lemma owned_list_nil : owned_list [] = ∅.
Proof. reflexivity. Qed.

Lemma owned_list_cons k ks : owned_list (k :: ks) = owned k ∪ owned_list ks.
Proof. reflexivity. Qed.

Lemma owned_list_replicate n : owned_list (replicate n zero_bitmap) = ∅.
Proof.
  induction n as [|n IH]; [reflexivity|].
  simpl. rewrite owned_list_cons, IH. simpl. set_solver.
Qed.

Lemma owned_list_insert kids i c c' :
  kids !! i = Some c -> owned c = ∅ ->
  owned_list (<[i:=c']> kids) = owned_list kids ∪ owned c'.
Proof.
  revert i. induction kids as [|k ks IH]; intros [|i] Hl Hc; try discriminate.
  - simpl in Hl. injection Hl as ->. simpl. rewrite !owned_list_cons, Hc. set_solver.
  - simpl in Hl. simpl. rewrite !owned_list_cons, (IH i) by assumption. set_solver.
Qed.

Lemma is_zero_bitmap_true b : is_zero_bitmap b = true <-> b = zero_bitmap.
Proof.
  split; [|now intros ->].
  destruct b as [[?|] [| |] [?|]]; simpl; intros; try discriminate. reflexivity.
Qed.

(** ** xnd_bitmap_clear on well-formed trees *)

(** Equal results: componentwise, with the live sets compared as sets. *)
Ltac same_result :=
  repeat match goal with
         | |- (_, _) = (_, _) => f_equal
         | |- Heap _ _ _ = Heap _ _ _ => f_equal
         | |- Bitmap _ _ _ = Bitmap _ _ _ => f_equal
         end;
  rewrite ?owned_list_nil; try reflexivity; try set_solver.

Lemma clear_loop_wf kids : forall i h,
  Forall (fun k => forall h, xnd_bitmap_clear k h =
    (Returns tt, Bitmap None (size k) None,
     Heap (live h ∖ owned k) (requests h) (refused h))) kids ->
  exists kids',
    clear_loop xnd_bitmap_clear (i + Z.of_nat (length kids)) i kids h =
    (Returns tt, kids', Heap (live h ∖ owned_list kids) (requests h) (refused h)).
Proof.
  induction kids as [|k ks IH]; intros i h Hks.
  - simpl. rewrite Z.add_0_r.
    destruct (Z.leb_spec i i); [|lia]. destruct h; simpl; eexists; same_result.
  - apply Forall_cons in Hks as [Hk Hks]. cbn [clear_loop].
    destruct (Z.leb_spec (i + Z.of_nat (length (k :: ks))) i) as [Hle|_];
      [simpl in Hle; lia|].
    rewrite Hk.
    replace (i + Z.of_nat (length (k :: ks))) with (i + 1 + Z.of_nat (length ks))
      by (simpl; lia).
    destruct (IH (i + 1) (Heap (live h ∖ owned k) (requests h) (refused h)) Hks)
      as (kids' & ->).
    eexists. rewrite owned_list_cons. simpl. same_result.
Qed.

Lemma xnd_bitmap_clear_wf b : bitmap_wf b -> forall h,
  xnd_bitmap_clear b h =
    (Returns tt, Bitmap None (size b) None,
     Heap (live h ∖ owned b) (requests h) (refused h)).
Proof.
  induction b as [d sz|d sz p kids IH] using bitmap_ind'; intros Hwf h.
  - simpl. destruct h as [L rq rf], d as [[q bytes]|]; simpl; same_result.
  - apply bitmap_wf_branch in Hwf as [-> Hwf]. cbn [xnd_bitmap_clear].
    assert (Hks : Forall (fun k => forall h, xnd_bitmap_clear k h =
      (Returns tt, Bitmap None (size k) None,
       Heap (live h ∖ owned k) (requests h) (refused h))) kids).
    { rewrite Forall_forall in *. intros k Hk. apply IH; [exact Hk|]. now apply Hwf. }
    destruct (clear_loop_wf kids 0 (ndt_free (fst <$> d) h) Hks) as (kids' & Hloop).
    rewrite Z.add_0_l in Hloop. rewrite Hloop.
    destruct h as [L rq rf], d as [[q bytes]|]; simpl;
      fold (owned_list kids); same_result.
Qed.

(** On a node without buffer and without child array the destructor does
    nothing, whatever [size] holds; so a second call after a first one
    changes neither the node nor the heap. *)
Lemma xnd_bitmap_clear_empty b h :
  is_empty b -> xnd_bitmap_clear b h = (Returns tt, b, h).
Proof.
  destruct b as [d sz nx]. intros [Hd Hn]. simpl in Hd, Hn. subst. reflexivity.
Qed.

Lemma xnd_bitmap_clear_twice b h :
  bitmap_wf b ->
  exists b1 h1,
    xnd_bitmap_clear b h = (Returns tt, b1, h1) /\ is_empty b1 /\
    size b1 = size b /\ live h1 = live h ∖ owned b /\
    xnd_bitmap_clear b1 h1 = (Returns tt, b1, h1).
Proof.
  intros Hwf. rewrite xnd_bitmap_clear_wf by exact Hwf.
  eexists _, _. split; [reflexivity|]. repeat split.
Qed.

(** ** The builder: ownership and rollback *)

Section Builder.

Variable grant : nat -> bool.

Lemma ndt_calloc_cases nmemb h :
  (0 <= nmemb /\
   ndt_calloc grant nmemb h =
     (Some (fresh (live h)),
      Heap ({[fresh (live h)]} ∪ live h) (S (requests h)) (refused h))) \/
  ndt_calloc grant nmemb h =
    (None, Heap (live h) (S (requests h)) (S (refused h))).
Proof.
  unfold ndt_calloc. destruct (Z.leb_spec 0 nmemb); simpl; [|now right].
  destruct (grant (requests h)); [left|right]; auto.
Qed.

Lemma bitmap_init_unfold t nitems b h :
  bitmap_init grant t nitems b h =
  if negb (is_zero_bitmap b) then (Undefined, b, h)
  else
    let leaf := (ndim t =? 0) && ndt_is_optional t in
    let '(d, h1) := if leaf then bits_new grant nitems h else (data b, h) in
    let b1 := Bitmap d (size b) (next b) in
    if leaf && is_null d then (Returns (-1), b1, h1)
    else if negb (ndt_subtree_is_optional t) then (Returns 0, b1, h1)
    else
      match t with
      | FixedDim _ _ shape type =>
          bitmap_init grant type (mul64 nitems shape) b1 h1
      | VarDim _ _ dtype offsets =>
          match last_offset offsets with
          | Some n => bitmap_init grant dtype n b1 h1
          | None => (Undefined, b1, h1)
          end
      | Tuple _ _ types =>
          init_product grant (fun ty => bitmap_init grant ty 1) types nitems b1 h1
      | Record _ _ types =>
          init_product grant (fun ty => bitmap_init grant ty 1) types nitems b1 h1
      | Other _ _ => (Returns 0, b1, h1)
      end.
Proof. destruct t; reflexivity. Qed.

Lemma bitmap_init_not_zero t nitems b h :
  is_zero_bitmap b = false -> bitmap_init grant t nitems b h = (Undefined, b, h).
Proof. intros Hb. rewrite bitmap_init_unfold, Hb. reflexivity. Qed.

Lemma init_fields_post init i shape types :
  Forall (init_ok init) types ->
  forall k kids h base N,
    kids_inv base N kids h ->
    loop_post base N (refused h) (init_fields init i shape k types kids h).
Proof.
  induction 1 as [|ty types [Hty Hnz] _ IH]; intros k kids h base N Hinv.
  - simpl. split; [exact Hinv|]. now left.
  - cbn [init_fields].
    destruct (if 0 <=? _ then _ else _) as [c|] eqn:Hc; [|split; [exact Hinv|reflexivity]].
    destruct (0 <=? _); [|discriminate].
    destruct Hinv as (Hwf & Hdisj & Hlive & Hlen).
    destruct (is_zero_bitmap c) eqn:Hz.
    + apply is_zero_bitmap_true in Hz. subst c.
      specialize (Hty h). destruct (init ty zero_bitmap h) as [[st c'] h'].
      destruct Hty as (Hwf' & Hdisj' & Hlive' & Hst).
      assert (Hinv' : kids_inv base N (<[Z.to_nat (add64 (mul64 i shape) k) := c']> kids) h').
      { split; [|split; [|split]].
        - now apply Forall_insert.
        - rewrite (owned_list_insert _ _ _ _ Hc) by reflexivity. set_solver.
        - rewrite (owned_list_insert _ _ _ _ Hc) by reflexivity. set_solver.
        - now rewrite length_insert. }
      destruct st as [v|].
      * destruct Hst as [[-> Hr]|(-> & Hr & _)]; simpl.
        -- rewrite <- Hr. now apply IH.
        -- split; [exact Hinv'|]. now right.
      * split; [exact Hinv'|exact Hst].
    + rewrite Hnz by exact Hz. rewrite list_insert_id by exact Hc.
      split; [|reflexivity]. repeat split; assumption.
Qed.

Lemma init_items_post fields :
  (forall i kids h base N, kids_inv base N kids h ->
     loop_post base N (refused h) (fields i kids h)) ->
  forall count i kids h base N,
    kids_inv base N kids h ->
    loop_post base N (refused h) (init_items fields count i kids h).
Proof.
  intros Hf. induction count as [|count IH]; intros i kids h base N Hinv.
  - simpl. split; [exact Hinv|]. now left.
  - cbn [init_items]. specialize (Hf i kids h base N Hinv).
    destruct (fields i kids h) as [[[v|] kids'] h']; [|exact Hf].
    destruct Hf as [Hinv' [[-> Hr]|[-> Hr]]]; simpl.
    + rewrite <- Hr. now apply IH.
    + split; [exact Hinv'|]. now right.
Qed.

Lemma clear_and_fail_wf b h :
  bitmap_wf b ->
  clear_and_fail b h =
    (Returns (-1), Bitmap None (size b) None,
     Heap (live h ∖ owned b) (requests h) (refused h)).
Proof. intros Hwf. unfold clear_and_fail. now rewrite xnd_bitmap_clear_wf. Qed.

Lemma init_product_post init types nitems d sz h L0 :
  Forall (init_ok init) types ->
  owned (Bitmap d sz None) ## L0 ->
  live h = L0 ∪ owned (Bitmap d sz None) ->
  post L0 (refused h) (init_product grant init types nitems (Bitmap d sz None) h).
Proof.
  intros Hok Hdisj Hlive. unfold init_product, bitmap_array_new.
  set (n := mul64 nitems (Z.of_nat (length types))).
  destruct (ndt_calloc_cases n h) as [[Hn ->]| ->].
  - pose proof (is_fresh (live h)) as Hfresh. set (q := fresh (live h)) in *.
    set (h1 := Heap _ _ _).
    assert (Hinv : kids_inv ({[q]} ∪ live h) (Z.to_nat n)
                     (replicate (Z.to_nat n) zero_bitmap) h1).
    { split; [|split; [|split]].
      - apply Forall_replicate. exact I.
      - rewrite owned_list_replicate. set_solver.
      - rewrite owned_list_replicate. simpl. set_solver.
      - apply length_replicate. }
    pose proof (init_items_post _
      (fun i kids h => init_fields_post init i (Z.of_nat (length types)) types Hok 0 kids h)
      (Z.to_nat nitems) 0 _ _ _ _ Hinv) as Hloop.
    destruct (init_items _ _ _ _ _) as [[st kids'] h2].
    destruct Hloop as [(Hwf & Hd' & Hl' & Hlen) Hst]. simpl in Hst, Hdisj, Hlive.
    assert (Hwfb : bitmap_wf (Bitmap d n (Some (q, kids')))).
    { apply bitmap_wf_branch. split; [lia|exact Hwf]. }
    destruct st as [v|].
    + destruct Hst as [[-> Hr]|[-> Hr]]; simpl.
      * split; [exact Hwfb|]. simpl. fold (owned_list kids').
        split; [set_solver|]. split; [set_solver|]. now left.
      * rewrite clear_and_fail_wf by exact Hwfb. simpl.
        fold (owned_list kids'). split; [exact I|].
        split; [set_solver|]. split; [set_solver|]. right. auto.
    + split; [exact Hwfb|]. simpl. fold (owned_list kids').
      split; [set_solver|]. split; [set_solver|]. exact Hst.
  - rewrite clear_and_fail_wf by exact I. simpl in *.
    split; [exact I|]. split; [set_solver|]. split; [set_solver|].
    right. repeat split; lia.
Qed.

(** The part of [bitmap_init] that a type of [ndim = 0] goes through: the
    optional leaf, the gate on the subtree flag, then the case [rest] of the
    switch. *)
Lemma dtype_stage_post (o s : bool) (nitems : Z) (h : heap)
    (rest : xnd_bitmap_t -> heap -> result) :
  (forall d h1, owned (Bitmap d 0 None) ## live h ->
     live h1 = live h ∪ owned (Bitmap d 0 None) -> refused h1 = refused h ->
     post (live h) (refused h) (rest (Bitmap d 0 None) h1)) ->
  post (live h) (refused h)
    (let '(d, h1) := if o then bits_new grant nitems h
                     else (@None (ptr * list Z), h) in
     let b1 := Bitmap d 0 None in
     if o && is_null d then (Returns (-1), b1, h1)
     else if negb s then (Returns 0, b1, h1)
     else rest b1 h1).
Proof.
  intros Hrest. pose proof (is_fresh (live h)) as Hfresh.
  destruct o; simpl.
  - unfold bits_new. destruct (ndt_calloc_cases (bitmap_size nitems) h) as [[_ ->]| ->]; simpl.
    + destruct s; simpl.
      * apply Hrest; simpl; [set_solver|set_solver|reflexivity].
      * split; [exact I|]. simpl. split; [set_solver|]. split; [set_solver|]. now left.
    + split; [exact I|]. simpl. split; [set_solver|]. split; [set_solver|].
      right. repeat split; lia.
  - destruct s; simpl.
    + apply Hrest; simpl; [set_solver|set_solver|reflexivity].
    + split; [exact I|]. simpl. split; [set_solver|]. split; [set_solver|]. now left.
Qed.

Lemma bitmap_init_ok t : forall nitems, init_ok (fun ty => bitmap_init grant ty nitems) t.
Proof.
  induction t as [o s shape t IH|o s t offs IH|o s ts IH|o s ts IH|o s] using ndt_ind';
    intros nitems; (split; [|intros c h; apply bitmap_init_not_zero]); intros h;
    rewrite bitmap_init_unfold; simpl is_zero_bitmap; cbn [negb].
  - pose proof (ndim_nonneg t). cbn [ndim].
    destruct (Z.eqb_spec (1 + ndim t) 0) as [|_]; [lia|]. simpl.
    destruct s; simpl; [apply IH|].
    split; [exact I|]. simpl. split; [set_solver|]. split; [set_solver|]. now left.
  - pose proof (ndim_nonneg t). cbn [ndim].
    destruct (Z.eqb_spec (1 + ndim t) 0) as [|_]; [lia|]. simpl.
    destruct s; simpl.
    + destruct (last_offset offs); [apply IH|].
      split; [exact I|]. simpl. split; [set_solver|]. split; [set_solver|]. reflexivity.
    + split; [exact I|]. simpl. split; [set_solver|]. split; [set_solver|]. now left.
  - apply (dtype_stage_post o s nitems h
             (init_product grant (fun ty => bitmap_init grant ty 1) ts nitems)).
    intros d h1 Hd Hl Hr. rewrite <- Hr. apply init_product_post; [|exact Hd|exact Hl].
    eapply Forall_impl; [exact IH|]. intros ty Hty. apply Hty.
  - apply (dtype_stage_post o s nitems h
             (init_product grant (fun ty => bitmap_init grant ty 1) ts nitems)).
    intros d h1 Hd Hl Hr. rewrite <- Hr. apply init_product_post; [|exact Hd|exact Hl].
    eapply Forall_impl; [exact IH|]. intros ty Hty. apply Hty.
  - apply (dtype_stage_post o s nitems h (fun b1 h1 => (Returns 0, b1, h1))).
    intros d h1 Hd Hl Hr. split; [exact I|]. split; [exact Hd|]. split; [exact Hl|].
    now left.
Qed.

(** A build on a zeroed node returns -1 exactly when one of its allocation
    requests was refused, and then nothing it allocated is left. *)
Lemma bitmap_init_failure t nitems h st b' h' :
  bitmap_init grant t nitems zero_bitmap h = (st, b', h') ->
  (refused h' <> refused h <-> st = Returns (-1)) /\
  (st = Returns (-1) ->
   live h' = live h /\ data b' = None /\ next b' = None /\ owned b' = ∅).
Proof.
  intros Hrun. destruct (bitmap_init_ok t nitems) as [Hpost _].
  specialize (Hpost h). rewrite Hrun in Hpost.
  destruct Hpost as (_ & Hdisj & Hlive & Hst). split.
  - destruct st as [v|]; [|split; [lia|discriminate]].
    destruct Hst as [[-> Hr]|(-> & Hr & _)]; split; try lia; try discriminate; auto.
  - intros ->. destruct Hst as [[? _]|(_ & _ & Hd & Hn)]; [discriminate|].
    assert (Ho : owned b' = ∅).
    { destruct b' as [d sz nx]. simpl in Hd, Hn. subst. simpl. set_solver. }
    rewrite Hlive, Ho. repeat split; try assumption. set_solver.
Qed.

(** C1: whatever the type and whichever allocation request of the build is
    refused, at any depth of the recursion, [xnd_bitmap_init] on a zeroed
    node returns -1; afterwards the live set
    of the heap is what it was before the call, so every buffer and child
    array allocated by the call has been freed, and the root node has no
    buffer and no child array. *)
Theorem xnd_bitmap_init_rollback (t : ndt_t) (h : heap)
    (st : outcome Z) (b' : xnd_bitmap_t) (h' : heap) :
  xnd_bitmap_init grant zero_bitmap t h = (st, b', h') ->
  refused h' <> refused h ->
  st = Returns (-1) /\ live h' = live h /\ data b' = None /\ next b' = None.
Proof.
  intros Hrun Hr.
  destruct (bitmap_init_failure t 1 h st b' h' Hrun) as [Hiff Hclean].
  apply Hiff in Hr. destruct (Hclean Hr) as (? & ? & ? & _). auto.
Qed.

(** ** Delegation and the gate on the subtree flag *)

Lemma last_offset_app pre n : last_offset (pre ++ [n]) = Some n.
Proof.
  unfold last_offset. rewrite length_app. simpl.
  replace (length pre + 1 - 1)%nat with (length pre + 0)%nat by lia.
  now rewrite lookup_app_r, Nat.add_0_r, Nat.sub_diag by lia.
Qed.

Lemma bitmap_init_dim t nitems b h :
  (ndim t =? 0) = false ->
  bitmap_init grant t nitems b h =
  if negb (is_zero_bitmap b) then (Undefined, b, h)
  else if negb (ndt_subtree_is_optional t) then (Returns 0, b, h)
  else
    match t with
    | FixedDim _ _ shape type => bitmap_init grant type (mul64 nitems shape) b h
    | VarDim _ _ dtype offsets =>
        match last_offset offsets with
        | Some n => bitmap_init grant dtype n b h
        | None => (Undefined, b, h)
        end
    | _ => (Returns 0, b, h)
    end.
Proof.
  intros Hdim. rewrite bitmap_init_unfold, Hdim.
  destruct b as [d sz nx]. cbn [andb data size next].
  destruct (negb _); [reflexivity|]. destruct (negb _); [reflexivity|].
  destruct t; try reflexivity; discriminate.
Qed.

Lemma ndim_dim_neq0 t : (1 + ndim t =? 0) = false.
Proof. pose proof (ndim_nonneg t). apply Z.eqb_neq. lia. Qed.

(** C4: with the subtree flag set, [bitmap_init] on a [FixedDim] is
    [bitmap_init] on its element type with [nitems * shape] items, and on
    a [VarDim] it is [bitmap_init] on the type [ndt_dtype] gives with the
    last offset as the number of items, both on the same node and the same
    heap. *)
Theorem dimension_delegation (nitems : Z) (b : xnd_bitmap_t) (h : heap) :
  (forall o shape elem,
     bitmap_init grant (FixedDim o true shape elem) nitems b h =
     bitmap_init grant elem (mul64 nitems shape) b h) /\
  (forall o shape elem, in_int64 (nitems * shape) ->
     bitmap_init grant (FixedDim o true shape elem) nitems b h =
     bitmap_init grant elem (nitems * shape) b h) /\
  (forall o elem offsets n,
     bitmap_init grant (VarDim o true elem (offsets ++ [n])) nitems b h =
     bitmap_init grant elem n b h).
Proof.
  assert (HF : forall o shape elem,
     bitmap_init grant (FixedDim o true shape elem) nitems b h =
     bitmap_init grant elem (mul64 nitems shape) b h).
  { intros o shape elem. rewrite bitmap_init_dim by apply ndim_dim_neq0.
    destruct (is_zero_bitmap b) eqn:Hb; [reflexivity|].
    now rewrite bitmap_init_not_zero. }
  split; [exact HF|]. split.
  - intros o shape elem Hr. rewrite HF. now rewrite mul64_exact.
  - intros o elem offsets n. rewrite bitmap_init_dim by apply ndim_dim_neq0.
    rewrite last_offset_app.
    destruct (is_zero_bitmap b) eqn:Hb; [reflexivity|].
    now rewrite bitmap_init_not_zero.
Qed.

(** The gate on the subtree flag, with the two flags read as independent
    fields: when the subtree flag of [t] is clear and [t] is not an optional
    type with [ndim = 0], [bitmap_init] on a zeroed node returns 0, leaves
    the node as it was and the heap untouched; for an optional type with
    [ndim = 0] whose subtree flag is clear the only request is the one for
    the leaf buffer, made before the gate. *)
Theorem no_optional_no_storage (t : ndt_t) (nitems : Z) (h : heap) :
  ndt_subtree_is_optional t = false ->
  ((ndim t =? 0) && ndt_is_optional t = false ->
   bitmap_init grant t nitems zero_bitmap h = (Returns 0, zero_bitmap, h)) /\
  ((ndim t =? 0) && ndt_is_optional t = true ->
   bitmap_init grant t nitems zero_bitmap h =
     match bits_new grant nitems h with
     | (Some d, h1) => (Returns 0, Bitmap (Some d) 0 None, h1)
     | (None, h1) => (Returns (-1), zero_bitmap, h1)
     end).
Proof.
  intros Hs. split; intros Hleaf; rewrite bitmap_init_unfold, Hleaf, Hs; simpl.
  - reflexivity.
  - destruct (bits_new grant nitems h) as [[d|] h1]; reflexivity.
Qed.

(** C6: for every type whose subtree flag is clear, the flag being inclusive
    of the type itself as the specification defines it, and every number of
    items, [bitmap_init] on a zeroed node returns 0, leaves the node zeroed
    (Empty) and leaves the heap as it was: no allocation request is made, so
    there is no leaf buffer and no child array anywhere. *)
Theorem non_optional_subtree_stays_empty (t : ndt_t) (nitems : Z) (h : heap) :
  flags_inclusive t ->
  ndt_subtree_is_optional t = false ->
  bitmap_init grant t nitems zero_bitmap h = (Returns 0, zero_bitmap, h) /\
  is_empty (snd (fst (bitmap_init grant t nitems zero_bitmap h))) /\
  owned (snd (fst (bitmap_init grant t nitems zero_bitmap h))) = ∅ /\
  requests (snd (bitmap_init grant t nitems zero_bitmap h)) = requests h /\
  live (snd (bitmap_init grant t nitems zero_bitmap h)) = live h.
Proof.
  intros Hincl Hs.
  assert (Ho : ndt_is_optional t = false).
  { destruct (ndt_is_optional t) eqn:Ho; [|reflexivity].
    specialize (Hincl Ho). congruence. }
  assert (Hrun : bitmap_init grant t nitems zero_bitmap h =
                 (Returns 0, zero_bitmap, h)).
  { rewrite bitmap_init_unfold, Ho, Hs. simpl. now rewrite andb_false_r. }
  rewrite Hrun. simpl. repeat split.
Qed.

(** ** The size calculator and the leaf allocator *)

Lemma bitmap_size_ceil n : 0 <= n <= INT64_MAX - 7 -> bitmap_size n = ceil_div8 n.
Proof.
  unfold INT64_MAX. intros Hn. unfold bitmap_size, ceil_div8.
  rewrite add64_exact by (unfold in_int64, INT64_MIN, INT64_MAX; lia).
  rewrite Z.quot_div_nonneg by lia. Z.div_mod_to_equations. lia.
Qed.

(** C9 (amended): for [0 <= n <= INT64_MAX - 7], [bitmap_size n] is the
    ceiling of [n / 8]; a granted [bits_new n] yields a buffer of that many
    bytes, all zero, in which every element reads as not valid (NA). *)
Theorem bitmap_size_zero_fill (n : Z) :
  0 <= n <= INT64_MAX - 7 ->
  bitmap_size n = ceil_div8 n /\
  8 * (bitmap_size n - 1) < n <= 8 * bitmap_size n /\
  forall h,
    (grant (requests h) = true -> exists d h', bits_new grant n h = (Some d, h')) /\
    (forall d h', bits_new grant n h = (Some d, h') ->
       d.2 = replicate (Z.to_nat (ceil_div8 n)) 0 /\
       forall i t, 0 <= i < n -> ndt_is_optional t = true ->
         xnd_is_valid (Xnd (Bitmap (Some d) 0 None) i t) = Returns 0 /\
         xnd_is_na (Xnd (Bitmap (Some d) 0 None) i t) = Returns 1).
Proof.
  intros Hn. pose proof (bitmap_size_ceil n Hn) as Hsz.
  assert (Hb : 8 * (bitmap_size n - 1) < n <= 8 * bitmap_size n).
  { rewrite Hsz. unfold ceil_div8. Z.div_mod_to_equations. lia. }
  split; [exact Hsz|]. split; [exact Hb|]. intros h. split.
  - intros Hg. unfold bits_new, ndt_calloc. rewrite Hg.
    destruct (Z.leb_spec 0 (bitmap_size n)); [|lia]. simpl. eauto.
  - intros d h' Hnew. unfold bits_new in Hnew.
    destruct (ndt_calloc grant (bitmap_size n) h) as [[p|] h1]; [|discriminate].
    injection Hnew as <- <-. cbn [snd]. rewrite <- Hsz. split; [reflexivity|].
    intros i t Hi Ho.
    assert (Hq : 0 <= i / 8 < bitmap_size n) by (Z.div_mod_to_equations; lia).
    assert (Hv : _xnd_is_valid (Xnd (Bitmap (Some (p, replicate (Z.to_nat (bitmap_size n)) 0))
                                        0 None) i t) = Returns 0).
    { unfold _xnd_is_valid. simpl. rewrite Ho. simpl.
      destruct (Z.leb_spec 0 i); [simpl|lia].
      rewrite quot8_nonneg by lia. unfold read_byte. simpl.
      rewrite lookup_replicate_2 by lia. reflexivity. }
    unfold xnd_is_valid, xnd_is_na. simpl. rewrite Ho, Hv. split; reflexivity.
Qed.

End Builder.

(** ** The loops over the child array *)

Section Loops.

Variable init : ndt_t -> xnd_bitmap_t -> heap -> result.

Lemma init_fields_status i shape : forall suf k kids h r kids' h',
  init_fields init i shape k suf kids h = (Returns r, kids', h') ->
  r = 0 \/ r = -1.
Proof.
  induction suf as [|ty suf IH]; intros k kids h r kids' h' Hrun; simpl in Hrun.
  - injection Hrun as <- _ _. now left.
  - destruct (if 0 <=? _ then _ else _) as [c|]; [|discriminate].
    destruct (init ty c h) as [[[v|] c'] h1]; [|discriminate].
    destruct (v <? 0).
    + injection Hrun as <- _ _. now right.
    + eapply IH, Hrun.
Qed.

(** A completed inner loop found every child it addressed inside the
    array. *)
Lemma init_fields_in_range i shape : forall suf k kids h kids' h',
  init_fields init i shape k suf kids h = (Returns 0, kids', h') ->
  length kids' = length kids /\
  forall f, (f < length suf)%nat ->
    0 <= add64 (mul64 i shape) (k + Z.of_nat f) /\
    (Z.to_nat (add64 (mul64 i shape) (k + Z.of_nat f)) < length kids)%nat.
Proof.
  induction suf as [|ty suf IH]; intros k kids h kids' h' Hrun; simpl in Hrun.
  - injection Hrun as <- _. split; [reflexivity|]. simpl. lia.
  - destruct (Z.leb_spec 0 (add64 (mul64 i shape) k)) as [Hidx|]; [|discriminate].
    destruct (kids !! _) as [c|] eqn:Hc; [|discriminate].
    apply lookup_lt_Some in Hc.
    destruct (init ty c h) as [[[v|] c'] h1]; [|discriminate].
    destruct (v <? 0); [discriminate|].
    apply IH in Hrun as [Hlen Hrange]. rewrite length_insert in Hlen, Hrange.
    split; [exact Hlen|]. intros [|f] Hf.
    + rewrite Z.add_0_r. auto.
    + replace (k + Z.of_nat (S f)) with (k + 1 + Z.of_nat f) by lia.
      apply Hrange. simpl in Hf. lia.
Qed.

Lemma init_items_in_range shape types : forall count i kids h kids' h',
  init_items (fun i => init_fields init i shape 0 types) count i kids h =
    (Returns 0, kids', h') ->
  length kids' = length kids /\
  forall j f, (j < count)%nat -> (f < length types)%nat ->
    0 <= add64 (mul64 (i + Z.of_nat j) shape) (Z.of_nat f) /\
    (Z.to_nat (add64 (mul64 (i + Z.of_nat j) shape) (Z.of_nat f)) < length kids)%nat.
Proof.
  induction count as [|count IH]; intros i kids h kids' h' Hrun; simpl in Hrun.
  - injection Hrun as <- _. split; [reflexivity|]. lia.
  - destruct (init_fields init i shape 0 types kids h) as [[[v|] kids1] h1] eqn:Hf;
      [|discriminate].
    destruct (init_fields_status _ _ _ _ _ _ _ _ _ Hf) as [->| ->]; [|discriminate].
    simpl in Hrun. apply init_fields_in_range in Hf as [Hlen1 Hr1].
    apply IH in Hrun as [Hlen Hr]. rewrite Hlen1 in Hlen, Hr.
    split; [exact Hlen|]. intros [|j] f Hj Hf.
    + rewrite Z.add_0_r. apply (Hr1 f Hf).
    + replace (i + Z.of_nat (S j)) with (i + 1 + Z.of_nat j) by lia.
      apply Hr; lia.
Qed.

Lemma init_items_status shape types : forall count i kids h r kids' h',
  init_items (fun i => init_fields init i shape 0 types) count i kids h =
    (Returns r, kids', h') ->
  r = 0 \/ r = -1.
Proof.
  induction count as [|count IH]; intros i kids h r kids' h' Hrun; simpl in Hrun.
  - injection Hrun as <- _ _. now left.
  - destruct (init_fields init i shape 0 types kids h) as [[[v|] kids1] h1];
      [|discriminate].
    destruct (v <? 0).
    + injection Hrun as <- _ _. now right.
    + eapply IH, Hrun.
Qed.

(** A property of the zeroed children that every successful [init] keeps
    holds of all children after completed loops. *)
Lemma init_fields_Forall (Q : xnd_bitmap_t -> Prop) i shape : forall suf,
  Forall (fun ty => forall c h v c' h',
            init ty c h = (Returns v, c', h') -> (v <? 0) = false -> Q c') suf ->
  forall k kids h kids' h',
    Forall Q kids ->
    init_fields init i shape k suf kids h = (Returns 0, kids', h') ->
    Forall Q kids'.
Proof.
  induction 1 as [|ty suf Hty _ IH]; intros k kids h kids' h' HQ Hrun; simpl in Hrun.
  - now injection Hrun as <- _.
  - destruct (if 0 <=? _ then _ else _) as [c|]; [|discriminate].
    destruct (init ty c h) as [[[v|] c'] h1] eqn:Hinit; [|discriminate].
    destruct (v <? 0) eqn:Hv; [discriminate|].
    eapply IH; [|exact Hrun]. apply Forall_insert; [exact HQ|]. eapply Hty; eauto.
Qed.

Lemma init_items_Forall (Q : xnd_bitmap_t -> Prop) shape types :
  Forall (fun ty => forall c h v c' h',
            init ty c h = (Returns v, c', h') -> (v <? 0) = false -> Q c') types ->
  forall count i kids h kids' h',
    Forall Q kids ->
    init_items (fun i => init_fields init i shape 0 types) count i kids h =
      (Returns 0, kids', h') ->
    Forall Q kids'.
Proof.
  intros Hty. induction count as [|count IH]; intros i kids h kids' h' HQ Hrun;
    simpl in Hrun.
  - now injection Hrun as <- _.
  - destruct (init_fields init i shape 0 types kids h) as [[[v|] kids1] h1] eqn:Hf;
      [|discriminate].
    destruct (init_fields_status _ _ _ _ _ _ _ _ _ Hf) as [->| ->]; [|discriminate].
    simpl in Hrun. eapply IH; [|exact Hrun].
    eapply init_fields_Forall; eauto.
Qed.

End Loops.

(** When every child addressed by the loops lies inside an array of
    [mul64 nitems shape] nodes, the product did not overflow. *)
Lemma product_exact nitems (len : nat) n :
  0 <= nitems -> n = mul64 nitems (Z.of_nat len) -> 0 <= n ->
  (forall j f, (j < Z.to_nat nitems)%nat -> (f < len)%nat ->
     0 <= add64 (mul64 (0 + Z.of_nat j) (Z.of_nat len)) (Z.of_nat f) /\
     (Z.to_nat (add64 (mul64 (0 + Z.of_nat j) (Z.of_nat len)) (Z.of_nat f))
        < Z.to_nat n)%nat) ->
  nitems * Z.of_nat len = n.
Proof.
  intros Hni Hn Hn0 Hrange.
  destruct (decide (nitems * Z.of_nat len <= INT64_MAX)) as [Hfit|Hover].
  { subst n. symmetry. apply mul64_exact. unfold in_int64, INT64_MIN. lia. }
  exfalso.
  pose proof (wrap64_range (nitems * Z.of_nat len)) as [_ Hmax].
  fold (mul64 nitems (Z.of_nat len)) in Hmax. rewrite <- Hn in Hmax.
  assert (Hlen : 0 < Z.of_nat len) by nia.
  pose proof (Z.div_mod n (Z.of_nat len) ltac:(lia)) as Hdm.
  pose proof (Z.mod_pos_bound n (Z.of_nat len) Hlen) as Hm.
  assert (Hq : 0 <= n / Z.of_nat len) by (apply Z.div_pos; lia).
  set (q := n / Z.of_nat len) in *. set (m := n mod Z.of_nat len) in *.
  assert (Hqn : q < nitems) by nia.
  destruct (Hrange (Z.to_nat q) (Z.to_nat m)) as [_ Hlt]; [lia|lia|].
  rewrite Z.add_0_l, !Z2Nat.id in Hlt by lia.
  rewrite mul64_exact in Hlt by (unfold in_int64, INT64_MIN; nia).
  rewrite add64_exact in Hlt by (unfold in_int64, INT64_MIN; nia).
  replace (q * Z.of_nat len + m) with n in Hlt by lia. lia.
Qed.

(** ** What the loops leave in the child array *)

Section Content.

Variable init : ndt_t -> xnd_bitmap_t -> heap -> result.
Variable types : list ndt_t.
Hypothesis init_types_ok : Forall (init_ok init) types.

Lemma init_ok_made ty h v c' h' :
  init_ok init ty -> init ty zero_bitmap h = (Returns v, c', h') ->
  (v <? 0) = false -> v = 0 /\ made init ty c'.
Proof.
  intros [Hpost _] Hrun Hv. specialize (Hpost h). rewrite Hrun in Hpost.
  destruct Hpost as (_ & _ & _ & [[-> _]|[-> _]]); [|discriminate].
  split; [reflexivity|]. now exists h, h'.
Qed.

Lemma init_fields_filled (i : nat) : forall suf pre kids h kids' h',
  types = pre ++ suf ->
  Z.of_nat ((i + 1) * length types) <= INT64_MAX ->
  filled init types (i * length types + length pre) kids ->
  init_fields init (Z.of_nat i) (Z.of_nat (length types))
              (Z.of_nat (length pre)) suf kids h = (Returns 0, kids', h') ->
  filled init types ((i + 1) * length types) kids'.
Proof.
  induction suf as [|ty suf IH]; intros pre kids h kids' h' Htypes Hmax Hfill Hrun.
  - simpl in Hrun. injection Hrun as <- _. rewrite app_nil_r in Htypes. subst pre.
    now replace ((i + 1) * length types)%nat with (i * length types + length types)%nat
      by lia.
  - assert (Hlen : length types = (length pre + S (length suf))%nat).
    { rewrite Htypes, length_app. reflexivity. }
    assert (Hty : types !! length pre = Some ty).
    { rewrite Htypes. apply list_lookup_middle. reflexivity. }
    assert (Hidx : add64 (mul64 (Z.of_nat i) (Z.of_nat (length types)))
                     (Z.of_nat (length pre)) =
                   Z.of_nat (i * length types + length pre)).
    { rewrite mul64_exact by (unfold in_int64, INT64_MIN; nia).
      rewrite add64_exact by (unfold in_int64, INT64_MIN; nia). lia. }
    cbn [init_fields] in Hrun. rewrite Hidx in Hrun.
    destruct (0 <=? _); [|discriminate]. rewrite Nat2Z.id in Hrun.
    set (m := (i * length types + length pre)%nat) in *.
    destruct (kids !! m) as [c|] eqn:Hc; [|discriminate].
    pose proof (lookup_lt_Some _ _ _ Hc) as Hm.
    destruct Hfill as [Hdone Hzero].
    rewrite (Hzero m) in Hc by lia. injection Hc as <-.
    destruct (init ty zero_bitmap h) as [[[v|] c'] h1] eqn:Hinit; [|discriminate].
    destruct (v <? 0) eqn:Hv; [discriminate|].
    assert (Hin : init_ok init ty).
    { rewrite Forall_forall in init_types_ok. apply init_types_ok.
      apply list_elem_of_lookup. eauto. }
    destruct (init_ok_made _ _ _ _ _ Hin Hinit Hv) as [-> Hmade].
    replace (Z.of_nat (length pre) + 1) with (Z.of_nat (length (pre ++ [ty])))
      in Hrun by (rewrite length_app; simpl; lia).
    refine (IH (pre ++ [ty]) _ _ _ _ _ Hmax _ Hrun).
    + now rewrite <- app_assoc.
    + rewrite length_app. simpl.
      replace (i * length types + (length pre + 1))%nat with (S m) by (unfold m; lia).
      split.
      * intros rep field ty0 Hlt Hf.
        pose proof (lookup_lt_Some _ _ _ Hf) as Hfield.
        destruct (decide (rep * length types + field = m)%nat) as [Heq|Hne].
        -- assert (rep = i /\ field = length pre) as [-> ->].
           { unfold m in Heq. destruct (Nat.lt_trichotomy rep i) as [Hlt'|[->|Hgt]].
             - pose proof (Nat.mul_le_mono_r (rep + 1) i (length types)). lia.
             - lia.
             - pose proof (Nat.mul_le_mono_r (i + 1) rep (length types)). lia. }
           rewrite Hty in Hf. injection Hf as <-. exists c'.
           split; [|exact Hmade]. apply list_lookup_insert_eq. exact Hm.
        -- destruct (Hdone rep field ty0) as (c0 & Hc0 & Hm0); [lia|exact Hf|].
           exists c0. split; [|exact Hm0]. rewrite list_lookup_insert_ne by lia. exact Hc0.
      * intros q Hq Hql. rewrite length_insert in Hql.
        rewrite list_lookup_insert_ne by lia. apply Hzero; lia.
Qed.

Lemma init_items_filled : forall count (i : nat) kids h kids' h',
  Z.of_nat ((i + count) * length types) <= INT64_MAX ->
  filled init types (i * length types) kids ->
  init_items (fun i => init_fields init i (Z.of_nat (length types)) 0 types)
             count (Z.of_nat i) kids h = (Returns 0, kids', h') ->
  filled init types ((i + count) * length types) kids'.
Proof.
  induction count as [|count IH]; intros i kids h kids' h' Hmax Hfill Hrun;
    simpl in Hrun.
  - injection Hrun as <- _. now rewrite Nat.add_0_r.
  - destruct (init_fields init (Z.of_nat i) _ 0 types kids h)
      as [[[v|] kids1] h1] eqn:Hf; [|discriminate].
    destruct (init_fields_status _ _ _ _ _ _ _ _ _ _ Hf) as [->| ->]; [|discriminate].
    simpl in Hrun.
    apply (init_fields_filled i types [] kids h kids1 h1) in Hf;
      [|reflexivity|nia|now rewrite Nat.add_0_r].
    replace (Z.of_nat i + 1) with (Z.of_nat (i + 1)) in Hrun by lia.
    apply IH in Hrun; [|nia|exact Hf].
    now replace (i + S count)%nat with (i + 1 + count)%nat by lia.
Qed.

End Content.

(** ** The three states *)

(** [is_Some] of a null pointer. *)
Ltac no_some H := exfalso; simpl in H; destruct H as [? H]; discriminate H.

Lemma exactly_one_state_iff b :
  exactly_one_state b <-> ~ (is_Some (data b) /\ is_Some (next b)).
Proof.
  unfold exactly_one_state, is_empty, is_leaf, is_branch.
  rewrite <- !not_eq_None_Some.
  destruct b as [[d|] sz [nx|]]; simpl; intuition congruence.
Qed.

Lemma exactly_one_state_leaf d sz : exactly_one_state (Bitmap d sz None).
Proof. apply exactly_one_state_iff. intros [_ H]. no_some H. Qed.

Lemma exactly_one_state_branch sz nx : exactly_one_state (Bitmap None sz nx).
Proof. apply exactly_one_state_iff. intros [H _]. no_some H. Qed.

Lemma every_node_zero P : P zero_bitmap -> every_node P zero_bitmap.
Proof. intros H. split; [exact H|exact I]. Qed.

Lemma filled_replicate init types n :
  filled init types 0 (replicate n zero_bitmap).
Proof.
  split; [intros; lia|]. intros q _ Hq. rewrite length_replicate in Hq.
  now apply lookup_replicate_2.
Qed.

(** ** The node a successful build leaves *)

Section Shape.

Variable grant : nat -> bool.

(** A successful [init_product]: the child array it leaves. *)
Lemma init_product_success init types nitems b h v b' h' :
  init_product grant init types nitems b h = (Returns v, b', h') ->
  (v <? 0) = false ->
  exists q kids h1,
    v = 0 /\
    0 <= mul64 nitems (Z.of_nat (length types)) /\
    b' = Bitmap (data b) (mul64 nitems (Z.of_nat (length types))) (Some (q, kids)) /\
    init_items (fun i => init_fields init i (Z.of_nat (length types)) 0 types)
      (Z.to_nat nitems) 0
      (replicate (Z.to_nat (mul64 nitems (Z.of_nat (length types)))) zero_bitmap) h1 =
      (Returns 0, kids, h').
Proof.
  unfold init_product, bitmap_array_new. intros Hrun Hv.
  assert (Hfail : forall c g, clear_and_fail c g <> (Returns v, b', h')).
  { intros c g Hc. unfold clear_and_fail in Hc.
    destruct (xnd_bitmap_clear c g) as [[[[]|] b1] g1]; [|discriminate].
    injection Hc as <- _ _. discriminate. }
  destruct (ndt_calloc_cases grant (mul64 nitems (Z.of_nat (length types))) h)
    as [[Hn Hc]|Hc]; rewrite Hc in Hrun; [|now apply Hfail in Hrun].
  destruct (init_items _ _ _ _ _) as [[[w|] kids] h2] eqn:Hloop; [|discriminate].
  destruct (init_items_status _ _ _ _ _ _ _ _ _ _ Hloop) as [->| ->]; simpl in Hrun;
    [|now apply Hfail in Hrun].
  injection Hrun as <- <- <-. eauto 10.
Qed.

Lemma init_product_children init types nitems b h b' h' :
  Forall (init_ok init) types -> 0 <= nitems ->
  init_product grant init types nitems b h = (Returns 0, b', h') ->
  exists q kids,
    b' = Bitmap (data b) (nitems * Z.of_nat (length types)) (Some (q, kids)) /\
    Z.of_nat (length kids) = nitems * Z.of_nat (length types) /\
    filled init types (Z.to_nat nitems * length types) kids.
Proof.
  intros Hok Hni Hrun.
  destruct (init_product_success _ _ _ _ _ _ _ _ Hrun eq_refl)
    as (q & kids & h1 & _ & Hn & -> & Hloop).
  pose proof (init_items_in_range _ _ _ _ _ _ _ _ _ Hloop) as [Hlen Hrange].
  rewrite length_replicate in Hlen, Hrange.
  pose proof (product_exact nitems (length types) _ Hni eq_refl Hn Hrange) as Hexact.
  pose proof (wrap64_range (nitems * Z.of_nat (length types))) as [_ Hmax].
  fold (mul64 nitems (Z.of_nat (length types))) in Hmax.
  rewrite <- Hexact in *.
  exists q, kids. split; [reflexivity|]. split; [lia|].
  apply (init_items_filled init types Hok (Z.to_nat nitems) 0%nat
           (replicate (Z.to_nat (nitems * Z.of_nat (length types))) zero_bitmap)
           h1 kids h');
    [nia|apply filled_replicate|exact Hloop].
Qed.

Lemma init_product_every (Q : xnd_bitmap_t -> Prop) init types nitems b h v b' h' :
  Forall (fun ty => forall c h v c' h',
            init ty c h = (Returns v, c', h') -> (v <? 0) = false -> Q c') types ->
  Q zero_bitmap ->
  init_product grant init types nitems b h = (Returns v, b', h') ->
  (v <? 0) = false ->
  exists q kids,
    b' = Bitmap (data b) (mul64 nitems (Z.of_nat (length types))) (Some (q, kids)) /\
    Forall Q kids.
Proof.
  intros Hty Hz Hrun Hv.
  destruct (init_product_success _ _ _ _ _ _ _ _ Hrun Hv)
    as (q & kids & h1 & _ & _ & -> & Hloop).
  exists q, kids. split; [reflexivity|].
  eapply init_items_Forall; [exact Hty| |exact Hloop].
  apply Forall_replicate, Hz.
Qed.

Lemma bitmap_init_product (record o s : bool) types nitems h :
  bitmap_init grant ((if record then Record else Tuple) o s types) nitems zero_bitmap h =
  let '(d, h1) := if o then bits_new grant nitems h
                  else (@None (ptr * list Z), h) in
  let b1 := Bitmap d 0 None in
  if o && is_null d then (Returns (-1), b1, h1)
  else if negb s then (Returns 0, b1, h1)
  else init_product grant (fun ty => bitmap_init grant ty 1) types nitems b1 h1.
Proof. destruct record; rewrite bitmap_init_unfold; reflexivity. Qed.

Lemma bitmap_init_types_ok types :
  Forall (init_ok (fun ty => bitmap_init grant ty 1)) types.
Proof. apply Forall_forall. intros ty _. apply bitmap_init_ok. Qed.

(** C3: a successful build for a [Tuple] or a [Record] with [k] field
    types, the subtree flag set and [nitems >= 1] leaves a child array of
    exactly [nitems * k] nodes ([size] says so too), in which the child at
    index [rep * k + field] is what a successful [bitmap_init] with
    [nitems = 1] makes of a zeroed node for the type of that field; and
    [bitmap_init] does the same for a [Tuple] as for a [Record]. *)
Theorem product_children (record o : bool) (types : list ndt_t) (nitems : Z)
    (h : heap) (b' : xnd_bitmap_t) (h' : heap) :
  1 <= nitems ->
  bitmap_init grant ((if record then Record else Tuple) o true types)
              nitems zero_bitmap h = (Returns 0, b', h') ->
  (exists p kids,
     next b' = Some (p, kids) /\
     size b' = nitems * Z.of_nat (length types) /\
     Z.of_nat (length kids) = nitems * Z.of_nat (length types) /\
     forall rep field ty,
       0 <= rep < nitems -> types !! field = Some ty ->
       exists c,
         kids !! Z.to_nat (rep * Z.of_nat (length types) + Z.of_nat field) = Some c /\
         built grant ty c) /\
  (forall n b g,
     bitmap_init grant (Tuple o true types) n b g =
     bitmap_init grant (Record o true types) n b g).
Proof.
  intros Hni Hrun. split; [|intros n b g; now rewrite !bitmap_init_unfold].
  rewrite bitmap_init_product in Hrun.
  destruct (if o then _ else _) as [d h1]. cbn [negb] in Hrun.
  destruct (o && is_null d); [discriminate|].
  apply init_product_children in Hrun as (q & kids & -> & Hlen & Hdone & _);
    [|apply bitmap_init_types_ok|lia].
  exists q, kids. split; [reflexivity|]. split; [reflexivity|]. split; [exact Hlen|].
  intros rep field ty Hrep Hty.
  pose proof (lookup_lt_Some _ _ _ Hty) as Hfield.
  destruct (Hdone (Z.to_nat rep) field ty) as (c & Hc & Hmade); [|exact Hty|].
  - pose proof (Nat.mul_le_mono_r (Z.to_nat rep + 1) (Z.to_nat nitems) (length types)).
    lia.
  - exists c. split; [|exact Hmade].
    replace (Z.to_nat (rep * Z.of_nat (length types) + Z.of_nat field))
      with (Z.to_nat rep * length types + field)%nat by nia.
    exact Hc.
Qed.

(** The root node owns a buffer and a child array together exactly for an
    optional product with the subtree flag. *)
Lemma root_both t : forall nitems h b' h',
  bitmap_init grant t nitems zero_bitmap h = (Returns 0, b', h') ->
  (is_Some (data b') /\ is_Some (next b')) <-> optional_product (delegate t) = true.
Proof.
  assert (Hzero : forall T : ndt_t,
    is_Some (data zero_bitmap) /\ is_Some (next zero_bitmap) <->
    false = true).
  { intros _. split; [intros [H _]; no_some H|discriminate]. }
  assert (Hprod : forall (record o s : bool) types nitems h b' h',
    bitmap_init grant ((if record then Record else Tuple) o s types)
      nitems zero_bitmap h = (Returns 0, b', h') ->
    (is_Some (data b') /\ is_Some (next b')) <-> o && s = true).
  { intros record o s types nitems h b' h' Hrun.
    rewrite bitmap_init_product in Hrun.
    destruct o; cbn [andb] in *.
    - destruct (bits_new grant nitems h) as [[d|] h1]; [|discriminate].
      cbn [is_null] in Hrun. destruct s; cbn [negb] in Hrun.
      + destruct (init_product_success _ _ _ _ _ _ _ _ Hrun eq_refl)
          as (q & kids & g & _ & _ & -> & _). simpl. split; eauto.
      + injection Hrun as <- _. simpl. split; [|discriminate].
        intros [_ H]. no_some H.
    - split; [|discriminate]. intros [H _]. exfalso. destruct s; cbn [negb] in Hrun.
      + destruct (init_product_success _ _ _ _ _ _ _ _ Hrun eq_refl)
          as (q & kids & g & _ & _ & -> & _). no_some H.
      + injection Hrun as <- _. no_some H. }
  induction t as [o s shape t IH|o s t offs IH|o s ts _|o s ts _|o s] using ndt_ind';
    intros nitems h b' h' Hrun.
  - rewrite bitmap_init_dim in Hrun by apply ndim_dim_neq0. simpl in Hrun.
    destruct s; simpl in *; [now apply IH in Hrun|].
    injection Hrun as <- _. now apply Hzero.
  - rewrite bitmap_init_dim in Hrun by apply ndim_dim_neq0. simpl in Hrun.
    destruct s; simpl in *.
    + destruct (last_offset offs); [now apply IH in Hrun|discriminate].
    + injection Hrun as <- _. now apply Hzero.
  - apply (Hprod false) in Hrun. exact Hrun.
  - apply (Hprod true) in Hrun. exact Hrun.
  - rewrite bitmap_init_unfold in Hrun. simpl.
    split; [|discriminate]. intros [_ H]. exfalso.
    destruct o; simpl in Hrun.
    + destruct (bits_new grant nitems h) as [[d|] h1]; simpl in Hrun; [|discriminate].
      destruct (negb s); injection Hrun as <- _; no_some H.
    + destruct (negb s); injection Hrun as <- _; no_some H.
Qed.

(** Without an optional product in the type, every node of the tree is in
    exactly one state. *)
Lemma every_exactly_one t : forall nitems c h v b' h',
  bitmap_init grant t nitems c h = (Returns v, b', h') -> (v <? 0) = false ->
  no_optional_product t = true ->
  every_node exactly_one_state b'.
Proof.
  assert (Hprod : forall (record o s : bool) ts,
    Forall (fun t => forall nitems c h v b' h',
      bitmap_init grant t nitems c h = (Returns v, b', h') -> (v <? 0) = false ->
      no_optional_product t = true -> every_node exactly_one_state b') ts ->
    forall nitems h v b' h',
    bitmap_init grant ((if record then Record else Tuple) o s ts) nitems zero_bitmap h =
      (Returns v, b', h') -> (v <? 0) = false ->
    negb (o && s) && forallb no_optional_product ts = true ->
    every_node exactly_one_state b').
  { intros record o s ts IH nitems h v b' h' Hrun Hv Hno.
    apply andb_prop in Hno as [Hos Hts].
    rewrite bitmap_init_product in Hrun.
    assert (Hkids : Forall (fun ty => forall c h v c' h',
      bitmap_init grant ty 1 c h = (Returns v, c', h') -> (v <? 0) = false ->
      every_node exactly_one_state c') ts).
    { rewrite Forall_forall in *. intros ty Hty c g w c' g' Hc Hw.
      eapply IH; eauto. rewrite forallb_forall in Hts. apply Hts.
      now apply list_elem_of_In. }
    destruct o; cbn [andb negb] in *.
    - destruct s; [discriminate|].
      destruct (bits_new grant nitems h) as [[d|] h1]; simpl in Hrun.
      + injection Hrun as _ <- _. split; [apply exactly_one_state_leaf|exact I].
      + injection Hrun as <- _ _. discriminate.
    - destruct s; cbn [negb] in Hrun.
      + destruct (init_product_every (every_node exactly_one_state) _ _ _ _ _ _ _ _
                    Hkids (every_node_zero _ (exactly_one_state_leaf _ _)) Hrun Hv)
          as (q & kids & -> & HQ).
        apply every_node_branch. split; [apply exactly_one_state_branch|exact HQ].
      + injection Hrun as _ <- _. split; [apply exactly_one_state_leaf|exact I]. }
  induction t as [o s shape t IH|o s t offs IH|o s ts IH|o s ts IH|o s] using ndt_ind';
    intros nitems c h v b' h' Hrun Hv Hno;
    (destruct (is_zero_bitmap c) eqn:Hc;
     [apply is_zero_bitmap_true in Hc; subst c
     |rewrite bitmap_init_not_zero in Hrun by exact Hc; discriminate]).
  - rewrite bitmap_init_dim in Hrun by apply ndim_dim_neq0. simpl in Hrun, Hno.
    destruct s; simpl in Hrun; [eapply IH; eauto|].
    injection Hrun as _ <- _. apply every_node_zero, exactly_one_state_leaf.
  - rewrite bitmap_init_dim in Hrun by apply ndim_dim_neq0. simpl in Hrun, Hno.
    destruct s; simpl in Hrun.
    + destruct (last_offset offs); [eapply IH; eauto|discriminate].
    + injection Hrun as _ <- _. apply every_node_zero, exactly_one_state_leaf.
  - apply (Hprod false o s ts IH nitems h v b' h' Hrun Hv Hno).
  - apply (Hprod true o s ts IH nitems h v b' h' Hrun Hv Hno).
  - rewrite bitmap_init_unfold in Hrun. simpl in Hrun. destruct o; simpl in Hrun.
    + destruct (bits_new grant nitems h) as [[d|] h1]; simpl in Hrun.
      * destruct (negb s); injection Hrun as _ <- _;
          (split; [apply exactly_one_state_leaf|exact I]).
      * injection Hrun as <- _ _. discriminate.
    + destruct (negb s); injection Hrun as _ <- _;
        (split; [apply exactly_one_state_leaf|exact I]).
Qed.

(** C2 (amended): after a successful build on a zeroed node, the node owns
    a leaf buffer and a child array together exactly when the type at which
    the delegation through the dimensions stops is an optional [Tuple] or
    [Record] with the subtree flag set; otherwise exactly one of the states
    Empty, Leaf and Branch holds for the node, and when the type has no such
    optional product in it this is so for every node of the tree. *)
Theorem build_states (t : ndt_t) (nitems : Z) (h : heap)
    (b' : xnd_bitmap_t) (h' : heap) :
  bitmap_init grant t nitems zero_bitmap h = (Returns 0, b', h') ->
  ((is_Some (data b') /\ is_Some (next b')) <->
     optional_product (delegate t) = true) /\
  (optional_product (delegate t) = false -> exactly_one_state b') /\
  (no_optional_product t = true -> every_node exactly_one_state b').
Proof.
  intros Hrun. pose proof (root_both t nitems h b' h' Hrun) as Hboth.
  split; [exact Hboth|]. split.
  - intros Hp. apply exactly_one_state_iff. rewrite Hboth, Hp. discriminate.
  - intros Hno. eapply every_exactly_one; eauto.
Qed.

End Shape.

(** ** The runs on the sample types *)

Lemma xnd_bitmap_init_rollback_witness :
  fst (fst rollback_run) = Returns (-1) /\
  live (snd rollback_run) = live empty_heap /\
  data (snd (fst rollback_run)) = None /\
  next (snd (fst rollback_run)) = None.
Proof.
  apply (xnd_bitmap_init_rollback (refuse_at 2) optional_pair empty_heap).
  - vm_compute. reflexivity.
  - vm_compute. discriminate.
Defined.

(** C2, as stated, fails: the successful build for an optional tuple with
    an optional field leaves a root node that owns a leaf buffer and a child
    array together. *)
Lemma optional_tuple_leaf_and_branch :
  fst (fst optional_pair_run) = Returns 0 /\
  is_Some (data (snd (fst optional_pair_run))) /\
  is_Some (next (snd (fst optional_pair_run))) /\
  ~ exactly_one_state (snd (fst optional_pair_run)).
Proof.
  assert (Hd : is_Some (data (snd (fst optional_pair_run)))).
  { exists (0%nat, [0]). vm_compute. reflexivity. }
  assert (Hn : is_Some (next (snd (fst optional_pair_run)))).
  { exists (1%nat, [Bitmap (Some (2%nat, [0])) 0 None; zero_bitmap]).
    vm_compute. reflexivity. }
  split; [vm_compute; reflexivity|]. split; [exact Hd|]. split; [exact Hn|].
  intros H. apply (proj1 (exactly_one_state_iff _) H). split; assumption.
Qed.

Lemma build_states_witness :
  ((is_Some (data (snd (fst fixed3_run))) /\ is_Some (next (snd (fst fixed3_run)))) <->
     optional_product (delegate (FixedDim false true 3 optional_scalar)) = true) /\
  (optional_product (delegate (FixedDim false true 3 optional_scalar)) = false ->
   exactly_one_state (snd (fst fixed3_run))) /\
  (no_optional_product (FixedDim false true 3 optional_scalar) = true ->
   every_node exactly_one_state (snd (fst fixed3_run))).
Proof.
  apply (build_states always_grant (FixedDim false true 3 optional_scalar) 1
                      empty_heap _ (snd fixed3_run)).
  vm_compute. reflexivity.
Defined.

Lemma product_children_witness :
  (exists p kids,
     next (snd (fst plain_pair_run)) = Some (p, kids) /\
     size (snd (fst plain_pair_run)) = 2 * Z.of_nat (length [optional_scalar; plain_scalar]) /\
     Z.of_nat (length kids) = 2 * Z.of_nat (length [optional_scalar; plain_scalar]) /\
     forall rep field ty,
       0 <= rep < 2 -> [optional_scalar; plain_scalar] !! field = Some ty ->
       exists c,
         kids !! Z.to_nat (rep * Z.of_nat (length [optional_scalar; plain_scalar])
                           + Z.of_nat field) = Some c /\
         built always_grant ty c) /\
  (forall n b g,
     bitmap_init always_grant (Tuple false true [optional_scalar; plain_scalar]) n b g =
     bitmap_init always_grant (Record false true [optional_scalar; plain_scalar]) n b g).
Proof.
  apply (product_children always_grant false false [optional_scalar; plain_scalar] 2
                          empty_heap _ (snd plain_pair_run)).
  - lia.
  - vm_compute. reflexivity.
Defined.

Lemma dimension_delegation_witness :
  bitmap_init always_grant (FixedDim false true 3 optional_scalar) 1 zero_bitmap empty_heap =
    bitmap_init always_grant optional_scalar (mul64 1 3) zero_bitmap empty_heap /\
  bitmap_init always_grant (FixedDim false true 3 optional_scalar) 1 zero_bitmap empty_heap =
    bitmap_init always_grant optional_scalar (1 * 3) zero_bitmap empty_heap /\
  bitmap_init always_grant (VarDim false true optional_scalar ([0; 2] ++ [5])) 1
              zero_bitmap empty_heap =
    bitmap_init always_grant optional_scalar 5 zero_bitmap empty_heap.
Proof.
  destruct (dimension_delegation always_grant 1 zero_bitmap empty_heap)
    as (HF & HF' & HV).
  split; [apply HF|]. split; [|apply HV].
  apply HF'. unfold in_int64, INT64_MIN, INT64_MAX. lia.
Defined.

(** The leaf is allocated before the gate: on a descriptor that is optional
    with [ndim = 0] while its subtree flag is clear, the build allocates a
    leaf buffer. *)
Lemma optional_scalar_gets_leaf :
  ndt_subtree_is_optional optional_scalar = false /\
  fst (fst optional_scalar_run) = Returns 0 /\
  data (snd (fst optional_scalar_run)) = Some (0%nat, [0]) /\
  ~ is_empty (snd (fst optional_scalar_run)) /\
  requests (snd optional_scalar_run) = 1%nat /\
  elements (live (snd optional_scalar_run)) = [0%nat].
Proof.
  assert (Hd : data (snd (fst optional_scalar_run)) = Some (0%nat, [0])).
  { vm_compute. reflexivity. }
  split; [reflexivity|]. split; [vm_compute; reflexivity|]. split; [exact Hd|].
  split; [intros [H _]; congruence|]. split; vm_compute; reflexivity.
Qed.

Lemma no_optional_no_storage_witness :
  bitmap_init always_grant plain_scalar 4 zero_bitmap empty_heap =
    (Returns 0, zero_bitmap, empty_heap) /\
  bitmap_init always_grant optional_scalar 4 zero_bitmap empty_heap =
    match bits_new always_grant 4 empty_heap with
    | (Some d, h1) => (Returns 0, Bitmap (Some d) 0 None, h1)
    | (None, h1) => (Returns (-1), zero_bitmap, h1)
    end.
Proof.
  split.
  - apply (proj1 (no_optional_no_storage always_grant plain_scalar 4 empty_heap
                    eq_refl)).
    reflexivity.
  - apply (proj2 (no_optional_no_storage always_grant optional_scalar 4 empty_heap
                    eq_refl)).
    reflexivity.
Defined.

Lemma non_optional_subtree_stays_empty_witness :
  bitmap_init always_grant (FixedDim false false 3 plain_scalar) 4 zero_bitmap empty_heap
    = (Returns 0, zero_bitmap, empty_heap) /\
  is_empty (snd (fst (bitmap_init always_grant (FixedDim false false 3 plain_scalar) 4
                                  zero_bitmap empty_heap))) /\
  owned (snd (fst (bitmap_init always_grant (FixedDim false false 3 plain_scalar) 4
                               zero_bitmap empty_heap))) = ∅ /\
  requests (snd (bitmap_init always_grant (FixedDim false false 3 plain_scalar) 4
                             zero_bitmap empty_heap)) = requests empty_heap /\
  live (snd (bitmap_init always_grant (FixedDim false false 3 plain_scalar) 4
                         zero_bitmap empty_heap)) = live empty_heap.
Proof.
  apply (non_optional_subtree_stays_empty always_grant
           (FixedDim false false 3 plain_scalar) 4 empty_heap).
  - intros H. discriminate H.
  - reflexivity.
Defined.

(** C9, as stated, fails: at [n = INT64_MAX] the sum [n + 7] leaves the
    range of [int64_t], and [bitmap_size] is not the ceiling of [n / 8]. *)
Lemma bitmap_size_int64_max :
  0 <= INT64_MAX /\ in_int64 INT64_MAX /\
  bitmap_size INT64_MAX <> ceil_div8 INT64_MAX /\ bitmap_size INT64_MAX < 0.
Proof.
  split; [vm_compute; discriminate|]. split; [split; vm_compute; discriminate|].
  split; [vm_compute; discriminate|]. vm_compute. reflexivity.
Qed.

Lemma bitmap_size_zero_fill_witness :
  bitmap_size 3 = ceil_div8 3 /\
  8 * (bitmap_size 3 - 1) < 3 <= 8 * bitmap_size 3 /\
  forall h,
    (always_grant (requests h) = true ->
     exists d h', bits_new always_grant 3 h = (Some d, h')) /\
    (forall d h', bits_new always_grant 3 h = (Some d, h') ->
       d.2 = replicate (Z.to_nat (ceil_div8 3)) 0 /\
       forall i t, 0 <= i < 3 -> ndt_is_optional t = true ->
         xnd_is_valid (Xnd (Bitmap (Some d) 0 None) i t) = Returns 0 /\
         xnd_is_na (Xnd (Bitmap (Some d) 0 None) i t) = Returns 1).
Proof.
  apply (bitmap_size_zero_fill always_grant 3). unfold INT64_MAX. lia.
Defined.

(** C5: [xnd_bitmap_clear] frees everything the node owns and resets
    [data] and [next], but it leaves [size] as it was.  On the tree built
    for [plain_pair] with two repetitions it returns a node with [size = 4]:
    not the zeroed node that [bitmap_init] asserts, so that a build on the
    cleared node stops at the assertion [b->size == 0]. *)
Theorem xnd_bitmap_clear_keeps_size :
  let b := snd (fst plain_pair_run) in
  let cleared := xnd_bitmap_clear b (snd plain_pair_run) in
  fst (fst plain_pair_run) = Returns 0 /\
  fst (fst cleared) = Returns tt /\
  elements (live (snd cleared)) = [] /\
  data (snd (fst cleared)) = None /\
  next (snd (fst cleared)) = None /\
  size (snd (fst cleared)) = 4 /\
  snd (fst cleared) <> zero_bitmap /\
  fst (fst (xnd_bitmap_init always_grant (snd (fst cleared)) plain_pair (snd cleared)))
    = Undefined.
Proof.
  cbv zeta. repeat split; try (vm_compute; reflexivity). vm_compute. discriminate.
Qed.

(** * Further properties of the accessors *)

Lemma to_uint8_lor_l v m : to_uint8 (Z.lor (to_uint8 v) m) = to_uint8 (Z.lor v m).
Proof.
  unfold to_uint8. change 256 with (2 ^ 8). apply Z.bits_inj'. intros n Hn.
  destruct (Z.lt_ge_cases n 8).
  - rewrite !Z.mod_pow2_bits_low, !Z.lor_spec, Z.mod_pow2_bits_low by lia. reflexivity.
  - rewrite !Z.mod_pow2_bits_high by lia. reflexivity.
Qed.

Lemma xnd_set_valid_inv x x' :
  xnd_set_valid x = Returns x' ->
  ndt_is_optional (type x) = true /\ 0 <= index x /\
  exists v, read_byte (bitmap x) (Z.quot (index x) 8) = Some v /\
    x' = Xnd (write_byte (bitmap x) (Z.quot (index x) 8)
                (Z.lor v (Z.shiftl 1 (Z.rem (index x) 8))))
             (index x) (type x).
Proof.
  unfold xnd_set_valid. intros H.
  destruct (ndt_is_optional (type x)); [|discriminate]. simpl in H.
  destruct (Z.leb_spec 0 (index x)); [|discriminate]. simpl in H.
  destruct (read_byte _ _) as [v|]; [|discriminate].
  injection H as <-. eauto.
Qed.

Lemma read_byte_covered b n :
  0 <= n -> is_Some (read_byte b (Z.quot n 8)) -> covered b n.
Proof.
  intros Hn [v Hv]. split; [exact Hn|]. unfold read_byte in Hv.
  destruct (data b) as [[p bytes]|]; [|discriminate].
  exists p, bytes. split; [reflexivity|].
  apply lookup_lt_Some in Hv.
  assert (0 <= Z.quot n 8) by (apply Z.quot_pos; lia). lia.
Qed.

(** X1: marking an element valid a second time changes nothing: a defined
    [xnd_set_valid] followed by [xnd_set_valid] at the same position returns
    the same node, byte for byte. *)
Theorem xnd_set_valid_idempotent (x x' : xnd_t) :
  xnd_set_valid x = Returns x' -> xnd_set_valid x' = Returns x'.
Proof.
  intros H. destruct (xnd_set_valid_inv x x' H) as (Ho & Hn & v & Hv & ->).
  assert (Hq : 0 <= Z.quot (index x) 8) by (apply Z.quot_pos; lia).
  unfold xnd_set_valid. simpl. rewrite Ho. simpl.
  destruct (Z.leb_spec 0 (index x)); [simpl|lia].
  rewrite read_write_byte by (try lia; rewrite Hv; eauto). rewrite Z.eqb_refl.
  do 2 f_equal.
  destruct (bitmap x) as [[[p bytes]|] sz nx]; [|discriminate]. simpl.
  rewrite list_insert_insert_eq. do 4 f_equal.
  rewrite to_uint8_lor_l, <- Z.lor_assoc, Z.lor_diag. reflexivity.
Qed.

Lemma xnd_set_valid_idempotent_witness :
  xnd_set_valid leaf3_valid1 = Returns leaf3_valid1.
Proof. apply (xnd_set_valid_idempotent leaf3_at1 leaf3_valid1). reflexivity. Defined.

(** X2: the order in which two elements are marked valid does not matter:
    at an optional position whose buffer covers [i] and [j], marking [i]
    then [j] and marking [j] then [i] are both defined and leave the same
    node. *)
Theorem xnd_set_valid_commutes (x : xnd_t) (i j : Z) :
  ndt_is_optional (type x) = true ->
  covered (bitmap x) i -> covered (bitmap x) j ->
  exists x1 x2,
    set_valid_all [i; j] x = Returns x1 /\
    set_valid_all [j; i] x = Returns x2 /\
    bitmap x1 = bitmap x2.
Proof.
  intros Ho Hi Hj.
  assert (Hstep : forall a c, covered (bitmap x) a -> covered (bitmap x) c ->
    exists va vc,
      read_byte (bitmap x) (a / 8) = Some va /\
      read_byte (bitmap x) (c / 8) = Some vc /\
      set_valid_all [a; c] x =
        Returns (Xnd (write_byte
                        (write_byte (bitmap x) (a / 8) (Z.lor va (Z.shiftl 1 (a mod 8))))
                        (c / 8)
                        (Z.lor (if c / 8 =? a / 8
                                then to_uint8 (Z.lor va (Z.shiftl 1 (a mod 8)))
                                else vc)
                               (Z.shiftl 1 (c mod 8))))
                     c (type x))).
  { intros a c Ha Hc.
    destruct (xnd_set_valid_defined (at_index x a) Ho Ha) as (va & Hva & Hsa).
    destruct (xnd_set_valid_bits (at_index x a) _ Ho Ha Hsa) as (_ & _ & Hcov & _).
    simpl in Hva, Hsa, Hcov.
    destruct (xnd_set_valid_defined (at_index x c) Ho Hc) as (vc & Hvc & _).
    simpl in Hvc. exists va, vc. split; [exact Hva|]. split; [exact Hvc|].
    cbn [set_valid_all]. rewrite Hsa.
    set (x1 := Xnd _ a (type x)).
    destruct (xnd_set_valid_defined (at_index x1 c) Ho) as (w & Hw & Hsc).
    { apply Hcov. exact Hc. }
    rewrite Hsc. simpl in Hw |- *.
    assert (0 <= a / 8) by (apply Z.div_pos; [apply Ha|lia]).
    assert (0 <= c / 8) by (apply Z.div_pos; [apply Hc|lia]).
    rewrite read_write_byte in Hw by (try lia; rewrite Hva; eauto).
    destruct (c / 8 =? a / 8); [|rewrite Hvc in Hw]; injection Hw as <-; reflexivity. }
  destruct (Hstep i j Hi Hj) as (vi & vj & Hvi & Hvj & Hij).
  destruct (Hstep j i Hj Hi) as (vj' & vi' & Hvj' & Hvi' & Hji).
  rewrite Hvj in Hvj'. injection Hvj' as <-. rewrite Hvi in Hvi'. injection Hvi' as <-.
  eexists _, _. split; [exact Hij|]. split; [exact Hji|]. simpl.
  assert (Hqi : 0 <= i / 8) by (apply Z.div_pos; [apply Hi|lia]).
  assert (Hqj : 0 <= j / 8) by (apply Z.div_pos; [apply Hj|lia]).
  destruct (bitmap x) as [[[p bytes]|] sz nx]; [|discriminate]. simpl.
  unfold read_byte in Hvi, Hvj. simpl in Hvi, Hvj. do 3 f_equal.
  rewrite (Z.eqb_sym (i / 8) (j / 8)).
  destruct (Z.eqb_spec (j / 8) (i / 8)) as [Heq|Hne].
  - rewrite Heq in *. rewrite Hvi in Hvj. injection Hvj as <-.
    rewrite !list_insert_insert_eq. f_equal.
    rewrite !to_uint8_lor_l, <- !Z.lor_assoc.
    now rewrite (Z.lor_comm (Z.shiftl 1 (i mod 8))).
  - apply list_insert_insert_ne. lia.
Qed.

Lemma xnd_set_valid_commutes_witness :
  exists x1 x2,
    set_valid_all [0; 2] leaf3_at1 = Returns x1 /\
    set_valid_all [2; 0] leaf3_at1 = Returns x2 /\
    bitmap x1 = bitmap x2.
Proof.
  apply (xnd_set_valid_commutes leaf3_at1 0 2).
  - reflexivity.
  - split; [lia|]. exists 0%nat, [0]. split; reflexivity.
  - split; [lia|]. exists 0%nat, [0]. split; reflexivity.
Defined.

Lemma xnd_bitmap_clear_write_byte b k v h :
  xnd_bitmap_clear (write_byte b k v) h = xnd_bitmap_clear b h.
Proof. destruct b as [[[p bytes]|] sz nx]; reflexivity. Qed.

(** X3: marking an element valid touches only the bytes of the leaf
    buffer: the node owns the same addresses with the same [size] and the
    same child array, and [xnd_bitmap_clear] does on it exactly what it does
    on the node before the call. *)
Theorem xnd_set_valid_keeps_tree (x x' : xnd_t) :
  xnd_set_valid x = Returns x' ->
  owned (bitmap x') = owned (bitmap x) /\
  size (bitmap x') = size (bitmap x) /\
  next (bitmap x') = next (bitmap x) /\
  (exists p bytes bytes',
     data (bitmap x) = Some (p, bytes) /\ data (bitmap x') = Some (p, bytes') /\
     length bytes' = length bytes) /\
  forall h, xnd_bitmap_clear (bitmap x') h = xnd_bitmap_clear (bitmap x) h.
Proof.
  intros H. destruct (xnd_set_valid_inv x x' H) as (_ & _ & v & Hv & ->). simpl.
  split; [|split; [|split; [|split]]].
  - destruct (bitmap x) as [[[p bytes]|] sz nx]; reflexivity.
  - destruct (bitmap x) as [[[p bytes]|] sz nx]; reflexivity.
  - destruct (bitmap x) as [[[p bytes]|] sz nx]; reflexivity.
  - unfold read_byte in Hv. destruct (bitmap x) as [[[p bytes]|] sz nx]; [|discriminate].
    simpl. eexists _, _, _. split; [reflexivity|]. split; [reflexivity|].
    apply length_insert.
  - intros h. apply xnd_bitmap_clear_write_byte.
Qed.

Lemma xnd_set_valid_keeps_tree_witness :
  owned (bitmap leaf3_valid1) = owned (bitmap leaf3_at1) /\
  size (bitmap leaf3_valid1) = size (bitmap leaf3_at1) /\
  next (bitmap leaf3_valid1) = next (bitmap leaf3_at1) /\
  (exists p bytes bytes',
     data (bitmap leaf3_at1) = Some (p, bytes) /\
     data (bitmap leaf3_valid1) = Some (p, bytes') /\
     length bytes' = length bytes) /\
  forall h, xnd_bitmap_clear (bitmap leaf3_valid1) h =
            xnd_bitmap_clear (bitmap leaf3_at1) h.
Proof. apply (xnd_set_valid_keeps_tree leaf3_at1 leaf3_valid1). reflexivity. Defined.

(** X4: at an optional position covered by the buffer, [xnd_is_valid]
    returns the masked byte, that is [1 << (index % 8)] when the bit is set
    (a value between 1 and 128, not 1 in general) and 0 when it is not,
    while [xnd_is_na] returns exactly 0 or 1. *)
Theorem xnd_is_valid_value (x : xnd_t) :
  ndt_is_optional (type x) = true -> covered (bitmap x) (index x) ->
  xnd_is_valid x =
    Returns (if buffer_bit (bitmap x) (index x / 8) (index x mod 8)
             then Z.shiftl 1 (index x mod 8) else 0) /\
  xnd_is_na x =
    Returns (if buffer_bit (bitmap x) (index x / 8) (index x mod 8) then 0 else 1) /\
  1 <= Z.shiftl 1 (index x mod 8) <= 128.
Proof.
  intros Ho Hc. unfold xnd_is_valid, xnd_is_na. rewrite Ho. simpl.
  rewrite _xnd_is_valid_bit by assumption.
  assert (Hr : 0 <= index x mod 8 < 8) by (apply Z.mod_pos_bound; lia).
  rewrite Z.shiftl_1_l.
  assert (Hp : 1 <= 2 ^ (index x mod 8) <= 128).
  { split.
    - apply (Z.pow_le_mono_r 2 0); lia.
    - apply (Z.pow_le_mono_r 2 _ 7); lia. }
  split; [reflexivity|]. split; [|exact Hp].
  destruct (buffer_bit _ _ _); [|reflexivity].
  unfold c_not. destruct (Z.eqb_spec (2 ^ (index x mod 8)) 0); [lia|reflexivity].
Qed.

Lemma xnd_is_valid_value_witness :
  xnd_is_valid (at_index leaf3_valid1 1) = Returns 2 /\
  xnd_is_na (at_index leaf3_valid1 1) = Returns 0 /\
  1 <= Z.shiftl 1 (1 mod 8) <= 128.
Proof.
  apply (xnd_is_valid_value (at_index leaf3_valid1 1)).
  - reflexivity.
  - split; [simpl; lia|]. exists 0%nat, [2]. split; reflexivity.
Defined.

(** * Further properties of the builder and the destructor *)

Lemma owned_addrs_set b : owned b = list_to_set (owned_addrs b).
Proof.
  induction b as [d sz|d sz p kids IH] using bitmap_ind'.
  - simpl. rewrite app_nil_r. destruct d as [[q bytes]|]; set_solver.
  - cbn [owned owned_addrs]. rewrite list_to_set_app_L, list_to_set_cons.
    assert (Hkids : ⋃ (owned <$> kids) =
                    (list_to_set (concat (owned_addrs <$> kids)) : gset ptr)).
    { induction IH as [|k ks Hk _ IHks]; [reflexivity|].
      cbn [fmap list_fmap concat union_list foldr].
      rewrite list_to_set_app_L, <- Hk. fold (union_list (owned <$> ks)).
      now rewrite IHks. }
    rewrite Hkids. destruct d as [[q bytes]|]; set_solver.
Qed.

(** X12: on a well-formed tree whose owned addresses are pairwise distinct
    and all live (no pointer of the tree dangles or is held twice),
    [xnd_bitmap_clear] returns, frees exactly the addresses the node owns at
    any depth and nothing else, so that the number of live allocations drops
    by the number of objects in the tree, makes no allocation request, and
    leaves a node without buffer and child array on which a second call
    changes neither the node nor the heap. *)
Theorem xnd_bitmap_clear_frees_owned (b : xnd_bitmap_t) (h : heap) :
  bitmap_wf b ->
  NoDup (owned_addrs b) ->
  owned b ⊆ live h ->
  exists h1,
    xnd_bitmap_clear b h = (Returns tt, Bitmap None (size b) None, h1) /\
    live h1 = live h ∖ owned b /\
    (stdpp.base.size (live h1) + length (owned_addrs b))%nat =
      stdpp.base.size (live h) /\
    requests h1 = requests h /\ refused h1 = refused h /\
    xnd_bitmap_clear (Bitmap None (size b) None) h1 =
      (Returns tt, Bitmap None (size b) None, h1).
Proof.
  intros Hwf Hnodup Hlive. rewrite xnd_bitmap_clear_wf by exact Hwf.
  eexists. split; [reflexivity|]. cbn [live requests refused].
  split; [reflexivity|]. split; [|repeat split].
  rewrite size_difference by exact Hlive.
  pose proof (subseteq_size _ _ Hlive) as Hle.
  rewrite owned_addrs_set in Hle |- *.
  rewrite size_list_to_set in Hle |- * by exact Hnodup. lia.
Qed.

Section BuilderMore.

Variable grant : nat -> bool.

Lemma bitmap_init_dims ds : forall t nitems b h,
  bitmap_init grant (dims_type ds t) nitems b h =
  bitmap_init grant t (dims_count ds nitems) b h.
Proof.
  induction ds as [|d ds IH]; intros t nitems b h; [reflexivity|].
  cbn [dims_type foldr dims_count fold_left].
  fold (dims_type ds t). fold (dims_count ds (dim_count nitems d)).
  destruct (is_zero_bitmap b) eqn:Hb.
  - rewrite <- IH.
    destruct d as [o shape|o pre total]; cbn [dim_type dim_count];
      rewrite bitmap_init_dim by apply ndim_dim_neq0; rewrite Hb; cbn [negb];
      [|rewrite last_offset_app]; reflexivity.
  - rewrite !bitmap_init_not_zero by exact Hb. reflexivity.
Qed.

Lemma fixed_dims_count shapes : forall n,
  (forall k, in_int64 (fold_left Z.mul (take k shapes) n)) ->
  dims_count (Fixed false <$> shapes) n = fold_left Z.mul shapes n.
Proof.
  induction shapes as [|s shapes IH]; intros n Hfit; [reflexivity|].
  cbn [fmap list_fmap dims_count fold_left dim_count].
  fold (dims_count (Fixed false <$> shapes) (mul64 n s)).
  rewrite mul64_exact by apply (Hfit 1%nat).
  apply IH. intros k. apply (Hfit (S k)).
Qed.

(** X5: the dimensions in front of a type are flattened one after the
    other: a build on a stack of [FixedDim] and [VarDim] dimensions (subtree
    flag set) is the build on the innermost type, on the same node and heap,
    with the number of items that results from multiplying by the shape at
    every [FixedDim] and restarting from the last offset at every [VarDim];
    for [FixedDim]s alone, with all partial products in the [int64_t] range,
    that number is [nitems] times the product of the shapes. *)
Theorem dims_delegation (ds : list dim) (t : ndt_t) (nitems : Z)
    (b : xnd_bitmap_t) (h : heap) :
  bitmap_init grant (dims_type ds t) nitems b h =
    bitmap_init grant t (dims_count ds nitems) b h /\
  forall shapes,
    (forall k, in_int64 (fold_left Z.mul (take k shapes) nitems)) ->
    bitmap_init grant (dims_type (Fixed false <$> shapes) t) nitems b h =
      bitmap_init grant t (fold_left Z.mul shapes nitems) b h.
Proof.
  split; [apply bitmap_init_dims|].
  intros shapes Hfit. rewrite bitmap_init_dims. now rewrite fixed_dims_count.
Qed.

Lemma ok_results t nitems h :
  post (live h) (refused h) (bitmap_init grant t nitems zero_bitmap h).
Proof. apply (bitmap_init_ok grant t nitems). Qed.

(** X6: whatever the type, the number of items and the oracle, and however
    the build ends, the node it leaves is well formed ([size] is the length
    of the child array at every branch), owns only addresses that were not
    live before, and the live set after the build is the live set before it
    together with what the node owns: the build frees nothing it did not
    allocate and leaves nothing allocated outside the tree. *)
Theorem bitmap_init_owns_what_it_allocates (t : ndt_t) (nitems : Z) (h : heap) :
  let b' := snd (fst (bitmap_init grant t nitems zero_bitmap h)) in
  let h' := snd (bitmap_init grant t nitems zero_bitmap h) in
  bitmap_wf b' /\ owned b' ## live h /\ live h' = live h ∪ owned b' /\
  live h ⊆ live h'.
Proof.
  cbv zeta. pose proof (ok_results t nitems h) as Hpost.
  destruct (bitmap_init grant t nitems zero_bitmap h) as [[st b'] h'].
  destruct Hpost as (Hwf & Hdisj & Hlive & _). simpl.
  repeat split; try assumption. set_solver.
Qed.

Lemma init_fields_one init i shape types :
  Forall (fun ty => forall c h, one_refusal (refused h) (init ty c h)) types ->
  forall k kids h, one_refusal (refused h) (init_fields init i shape k types kids h).
Proof.
  induction 1 as [|ty types Hty _ IH]; intros k kids h; cbn [init_fields].
  - now left.
  - destruct (if 0 <=? _ then _ else _) as [c|]; [|reflexivity].
    specialize (Hty c h). destruct (init ty c h) as [[[v|] c'] h1]; [|exact Hty].
    destruct Hty as [[-> Hr]|[-> Hr]]; simpl.
    + rewrite <- Hr. apply IH.
    + now right.
Qed.

Lemma init_items_one
    (fields : Z -> list xnd_bitmap_t -> heap -> outcome Z * list xnd_bitmap_t * heap) :
  (forall i kids h, one_refusal (refused h) (fields i kids h)) ->
  forall count i kids h, one_refusal (refused h) (init_items fields count i kids h).
Proof.
  intros Hf. induction count as [|count IH]; intros i kids h; cbn [init_items].
  - now left.
  - specialize (Hf i kids h). destruct (fields i kids h) as [[[v|] kids'] h1];
      [|exact Hf].
    destruct Hf as [[-> Hr]|[-> Hr]]; simpl.
    + rewrite <- Hr. apply IH.
    + now right.
Qed.

Lemma init_product_one init types nitems d sz h :
  Forall (init_ok init) types ->
  Forall (fun ty => forall c h, one_refusal (refused h) (init ty c h)) types ->
  one_refusal (refused h) (init_product grant init types nitems (Bitmap d sz None) h).
Proof.
  intros Hok Hone. unfold init_product, bitmap_array_new.
  set (n := mul64 nitems (Z.of_nat (length types))).
  destruct (ndt_calloc_cases grant n h) as [[Hn ->]| ->].
  - set (h1 := Heap _ _ _).
    assert (Hinv : kids_inv (live h1) (Z.to_nat n)
                     (replicate (Z.to_nat n) zero_bitmap) h1).
    { split; [|split; [|split]].
      - apply Forall_replicate. exact I.
      - rewrite owned_list_replicate. set_solver.
      - rewrite owned_list_replicate. set_solver.
      - apply length_replicate. }
    pose proof (init_items_post _
      (fun i kids g => init_fields_post grant init i (Z.of_nat (length types)) types Hok 0 kids g)
      (Z.to_nat nitems) 0 _ _ _ _ Hinv) as Hloop.
    pose proof (init_items_one _
      (fun i kids g => init_fields_one init i (Z.of_nat (length types)) types Hone 0 kids g)
      (Z.to_nat nitems) 0 (replicate (Z.to_nat n) zero_bitmap) h1) as Hcount.
    destruct (init_items _ _ _ _ _) as [[st kids'] h2].
    destruct Hloop as [(Hwf & _ & _ & Hlen) _].
    destruct st as [v|]; [|exact Hcount].
    destruct Hcount as [[-> Hr]|[-> Hr]]; simpl.
    + now left.
    + rewrite clear_and_fail_wf
        by (apply bitmap_wf_branch; split; [lia|exact Hwf]).
      right. split; [reflexivity|exact Hr].
  - rewrite clear_and_fail_wf by exact I. right. split; reflexivity.
Qed.

Lemma bitmap_init_one t : forall nitems c h,
  one_refusal (refused h) (bitmap_init grant t nitems c h).
Proof.
  assert (Hstage : forall (o s : bool) nitems h
            (rest : xnd_bitmap_t -> heap -> result),
    (forall d g, one_refusal (refused g) (rest (Bitmap d 0 None) g)) ->
    one_refusal (refused h)
      (let '(d, h1) := if o then bits_new grant nitems h
                       else (@None (ptr * list Z), h) in
       let b1 := Bitmap d 0 None in
       if o && is_null d then (Returns (-1), b1, h1)
       else if negb s then (Returns 0, b1, h1)
       else rest b1 h1)).
  { intros o s nitems h rest Hrest. destruct o; simpl.
    - unfold bits_new.
      destruct (ndt_calloc_cases grant (bitmap_size nitems) h) as [[_ ->]| ->]; simpl.
      + destruct s; simpl; [|now left]. apply (Hrest _ (Heap _ _ _)).
      + now right.
    - destruct s; simpl; [apply Hrest|now left]. }
  induction t as [o s shape t IH|o s t offs IH|o s ts IH|o s ts IH|o s] using ndt_ind';
    intros nitems c h;
    (destruct (is_zero_bitmap c) eqn:Hc;
     [apply is_zero_bitmap_true in Hc; subst c
     |rewrite bitmap_init_not_zero by exact Hc; reflexivity]).
  - rewrite bitmap_init_dim by apply ndim_dim_neq0. simpl.
    destruct s; simpl; [apply IH|now left].
  - rewrite bitmap_init_dim by apply ndim_dim_neq0. simpl.
    destruct s; simpl; [|now left].
    destruct (last_offset offs); [apply IH|reflexivity].
  - rewrite (bitmap_init_product grant false). apply Hstage. intros d g.
    apply init_product_one; [apply bitmap_init_types_ok|].
    eapply Forall_impl; [exact IH|]. intros ty Hty. apply Hty.
  - rewrite (bitmap_init_product grant true). apply Hstage. intros d g.
    apply init_product_one; [apply bitmap_init_types_ok|].
    eapply Forall_impl; [exact IH|]. intros ty Hty. apply Hty.
  - rewrite bitmap_init_unfold. simpl.
    apply (Hstage o s nitems h (fun b1 h1 => (Returns 0, b1, h1))).
    intros d g. now left.
Qed.

(** X7: a build ends in one of three ways, and the first refused request
    ends it: it returns 0 or has no defined behaviour without any request
    refused, or it returns -1 with exactly one request refused, so that the
    memory error is raised exactly once; this holds for every node passed in. *)
Theorem bitmap_init_one_refusal (t : ndt_t) (nitems : Z) (b : xnd_bitmap_t)
    (h : heap) :
  let st := fst (fst (bitmap_init grant t nitems b h)) in
  let h' := snd (bitmap_init grant t nitems b h) in
  (st = Returns 0 /\ refused h' = refused h) \/
  (st = Returns (-1) /\ refused h' = S (refused h)) \/
  (st = Undefined /\ refused h' = refused h).
Proof.
  cbv zeta. pose proof (bitmap_init_one t nitems b h) as Hone.
  destruct (bitmap_init grant t nitems b h) as [[[v|] b'] h']; simpl in *.
  - destruct Hone as [[-> Hr]|[-> Hr]]; [left|right; left]; auto.
  - right. right. auto.
Qed.

(** X8: build then destroy is a round trip on the heap: however the build
    on a zeroed node ended, [xnd_bitmap_clear] on the node it left returns,
    makes no allocation request and brings the live set back to what it was
    before the build. *)
Theorem build_then_clear (t : ndt_t) (nitems : Z) (h : heap) :
  let b' := snd (fst (bitmap_init grant t nitems zero_bitmap h)) in
  let h' := snd (bitmap_init grant t nitems zero_bitmap h) in
  exists h'',
    xnd_bitmap_clear b' h' = (Returns tt, Bitmap None (size b') None, h'') /\
    live h'' = live h /\ requests h'' = requests h' /\ refused h'' = refused h'.
Proof.
  cbv zeta. pose proof (ok_results t nitems h) as Hpost.
  destruct (bitmap_init grant t nitems zero_bitmap h) as [[st b'] h'].
  destruct Hpost as (Hwf & Hdisj & Hlive & _). simpl.
  rewrite xnd_bitmap_clear_wf by exact Hwf.
  eexists. split; [reflexivity|]. simpl. repeat split. set_solver.
Qed.

Lemma init_items_no_fields init shape : forall count i kids h,
  init_items (fun i => init_fields init i shape 0 []) count i kids h =
    (Returns 0, kids, h).
Proof. induction count as [|count IH]; intros i kids h; simpl; [reflexivity|apply IH]. Qed.

(** X9: a product over nothing still allocates.  For a [Tuple] or [Record]
    (not optional itself, subtree flag set) built with [nitems = 0], or
    with no field at all, the only allocation request is the one for a child
    array of zero nodes: if it is granted the node becomes a branch with an
    empty array that it owns, and if it is refused (as [calloc] may do for a
    zero size) the build returns -1 with the node zeroed. *)
Theorem empty_product_build (record : bool) (types : list ndt_t) (nitems : Z)
    (h : heap) :
  nitems = 0 \/ (types = [] /\ 0 <= nitems) ->
  bitmap_init grant ((if record then Record else Tuple) false true types)
              nitems zero_bitmap h =
  if grant (requests h) then
    (Returns 0, Bitmap None 0 (Some (fresh (live h), [])),
     Heap ({[fresh (live h)]} ∪ live h) (S (requests h)) (refused h))
  else
    (Returns (-1), zero_bitmap, Heap (live h) (S (requests h)) (S (refused h))).
Proof.
  intros Hempty. rewrite bitmap_init_product. cbn [andb negb].
  unfold init_product, bitmap_array_new, ndt_calloc.
  assert (Hn : mul64 nitems (Z.of_nat (length types)) = 0).
  { destruct Hempty as [->|[-> _]]; [reflexivity|].
    unfold mul64. cbn [length Z.of_nat]. rewrite Z.mul_0_r. reflexivity. }
  rewrite Hn. cbn [Z.leb Z.compare andb].
  destruct (grant (requests h)); [|reflexivity].
  cbn [Z.to_nat replicate].
  destruct Hempty as [->|[-> _]].
  - reflexivity.
  - rewrite init_items_no_fields. reflexivity.
Qed.

Lemma bitmap_init_gate t nitems h :
  ndt_subtree_is_optional t = false ->
  bitmap_init grant t nitems zero_bitmap h =
  if (ndim t =? 0) && ndt_is_optional t then
    match bits_new grant nitems h with
    | (Some d, h1) => (Returns 0, Bitmap (Some d) 0 None, h1)
    | (None, h1) => (Returns (-1), zero_bitmap, h1)
    end
  else (Returns 0, zero_bitmap, h).
Proof.
  intros Hs. rewrite bitmap_init_unfold, Hs. simpl.
  destruct ((ndim t =? 0) && ndt_is_optional t); [|reflexivity].
  destruct (bits_new grant nitems h) as [[d|] h1]; reflexivity.
Qed.

(** X10: the children of a successful product build, field by field: for
    a field whose type has the subtree flag clear, the child of every
    repetition is the zeroed node when the type is not an optional type of
    [ndim = 0], and a leaf with a buffer of one zero byte when it is. *)
Theorem product_field_children (record o : bool) (types : list ndt_t)
    (nitems : Z) (h : heap) (b' : xnd_bitmap_t) (h' : heap) :
  0 <= nitems ->
  bitmap_init grant ((if record then Record else Tuple) o true types)
              nitems zero_bitmap h = (Returns 0, b', h') ->
  exists p kids,
    next b' = Some (p, kids) /\
    forall rep field ty,
      0 <= rep < nitems -> types !! field = Some ty ->
      ndt_subtree_is_optional ty = false ->
      exists c,
        kids !! Z.to_nat (rep * Z.of_nat (length types) + Z.of_nat field) = Some c /\
        if (ndim ty =? 0) && ndt_is_optional ty
        then exists q, c = Bitmap (Some (q, [0])) 0 None
        else c = zero_bitmap.
Proof.
  intros Hni Hrun. rewrite bitmap_init_product in Hrun.
  destruct (if o then _ else _) as [d h1]. cbn [negb] in Hrun.
  destruct (o && is_null d); [discriminate|].
  apply init_product_children in Hrun as (q & kids & -> & Hlen & Hdone & _);
    [|apply bitmap_init_types_ok|lia].
  exists q, kids. split; [reflexivity|].
  intros rep field ty Hrep Hty Hs.
  pose proof (lookup_lt_Some _ _ _ Hty) as Hfield.
  destruct (Hdone (Z.to_nat rep) field ty) as (c & Hc & h2 & h3 & Hmade);
    [|exact Hty|].
  { pose proof (Nat.mul_le_mono_r (Z.to_nat rep + 1) (Z.to_nat nitems) (length types)).
    lia. }
  exists c. split.
  { replace (Z.to_nat (rep * Z.of_nat (length types) + Z.of_nat field))
      with (Z.to_nat rep * length types + field)%nat by nia.
    exact Hc. }
  rewrite bitmap_init_gate in Hmade by exact Hs.
  destruct ((ndim ty =? 0) && ndt_is_optional ty).
  - unfold bits_new in Hmade.
    destruct (ndt_calloc grant (bitmap_size 1) h2) as [[a|] g]; [|discriminate].
    injection Hmade as <- _. exists a. reflexivity.
  - now injection Hmade as <- _.
Qed.

Lemma zero_buffer_reads_na p n i t sz nx :
  0 <= i -> i / 8 < n -> ndt_is_optional t = true ->
  covered (Bitmap (Some (p, replicate (Z.to_nat n) 0)) sz nx) i /\
  xnd_is_valid (Xnd (Bitmap (Some (p, replicate (Z.to_nat n) 0)) sz nx) i t) = Returns 0 /\
  xnd_is_na (Xnd (Bitmap (Some (p, replicate (Z.to_nat n) 0)) sz nx) i t) = Returns 1.
Proof.
  intros Hi Hn Ho.
  assert (Hq : 0 <= i / 8) by (apply Z.div_pos; lia).
  assert (Hv : _xnd_is_valid (Xnd (Bitmap (Some (p, replicate (Z.to_nat n) 0)) sz nx) i t)
               = Returns 0).
  { unfold _xnd_is_valid. simpl. rewrite Ho. simpl.
    destruct (Z.leb_spec 0 i); [simpl|lia].
    rewrite quot8_nonneg by lia. unfold read_byte. simpl.
    rewrite lookup_replicate_2 by lia. reflexivity. }
  split.
  - split; [exact Hi|]. eexists _, _. split; [reflexivity|].
    rewrite length_replicate, quot8_nonneg by lia. lia.
  - unfold xnd_is_valid, xnd_is_na. simpl. rewrite Ho, Hv. split; reflexivity.
Qed.

(** X11: building for dimensions of optional scalars and then querying:
    when the flattened number of items [N] of a stack of dimensions over an
    optional scalar lies in [0, INT64_MAX - 7], a successful build leaves a
    leaf of [ceil (N / 8)] zero bytes and no child array; every index below
    [N] is covered by that buffer and reads as not valid, [xnd_is_na]
    returning 1. *)
Theorem dims_leaf_covers (ds : list dim) (s : bool) (nitems : Z) (h : heap)
    (b' : xnd_bitmap_t) (h' : heap) :
  0 <= dims_count ds nitems <= INT64_MAX - 7 ->
  bitmap_init grant (dims_type ds (Other true s)) nitems zero_bitmap h =
    (Returns 0, b', h') ->
  exists p,
    b' = Bitmap (Some (p, replicate (Z.to_nat (ceil_div8 (dims_count ds nitems))) 0))
                0 None /\
    forall i, 0 <= i < dims_count ds nitems ->
      covered b' i /\
      xnd_is_valid (Xnd b' i (Other true s)) = Returns 0 /\
      xnd_is_na (Xnd b' i (Other true s)) = Returns 1.
Proof.
  intros HN Hrun. rewrite bitmap_init_dims in Hrun.
  set (N := dims_count ds nitems) in *.
  rewrite bitmap_init_unfold in Hrun. simpl in Hrun. unfold bits_new in Hrun.
  destruct (ndt_calloc grant (bitmap_size N) h) as [[p|] h1]; simpl in Hrun;
    [|discriminate].
  assert (Hb : b' = Bitmap (Some (p, replicate (Z.to_nat (bitmap_size N)) 0)) 0 None).
  { destruct s; simpl in Hrun; now injection Hrun as <- _. }
  rewrite bitmap_size_ceil in Hb by exact HN.
  exists p. split; [exact Hb|]. intros i Hi. subst b'.
  apply zero_buffer_reads_na; [lia| |reflexivity].
  unfold ceil_div8. Z.div_mod_to_equations. lia.
Qed.

(** X13: a failed build does not leave a zeroed root when the child array
    had been allocated.  For a [Tuple] or [Record] (not optional itself,
    subtree flag set) whose array request is granted, a build that returns -1
    leaves the root with [data] and [next] null but [size] still
    [nitems * shape]; when that is not 0, every later [bitmap_init] on this
    node stops at its assertions. *)
Theorem failed_product_keeps_size (record : bool) (types : list ndt_t)
    (nitems : Z) (h : heap) (b' : xnd_bitmap_t) (h' : heap) :
  grant (requests h) = true ->
  0 <= mul64 nitems (Z.of_nat (length types)) ->
  bitmap_init grant ((if record then Record else Tuple) false true types)
              nitems zero_bitmap h = (Returns (-1), b', h') ->
  b' = Bitmap None (mul64 nitems (Z.of_nat (length types))) None /\
  (mul64 nitems (Z.of_nat (length types)) <> 0 ->
   forall t2 n2 g, bitmap_init grant t2 n2 b' g = (Undefined, b', g)).
Proof.
  intros Hg Hn Hrun.
  assert (Hb : b' = Bitmap None (mul64 nitems (Z.of_nat (length types))) None).
  { rewrite bitmap_init_product in Hrun. cbn [andb negb] in Hrun.
    unfold init_product, bitmap_array_new, ndt_calloc in Hrun. rewrite Hg in Hrun.
    destruct (Z.leb_spec 0 (mul64 nitems (Z.of_nat (length types)))); [|lia].
    cbn [andb data size] in Hrun.
    set (n := mul64 nitems (Z.of_nat (length types))) in *.
    set (h1 := Heap _ _ _) in Hrun.
    assert (Hinv : kids_inv (live h1) (Z.to_nat n)
                     (replicate (Z.to_nat n) zero_bitmap) h1).
    { split; [|split; [|split]].
      - apply Forall_replicate. exact I.
      - rewrite owned_list_replicate. set_solver.
      - rewrite owned_list_replicate. set_solver.
      - apply length_replicate. }
    pose proof (init_items_post _
      (fun i kids g => init_fields_post grant (fun ty => bitmap_init grant ty 1) i
                         (Z.of_nat (length types)) types
                         (bitmap_init_types_ok grant types) 0 kids g)
      (Z.to_nat nitems) 0 _ _ _ _ Hinv) as Hloop.
    destruct (init_items _ _ _ _ _) as [[[v|] kids'] h2] eqn:Hitems; [|discriminate].
    destruct Hloop as [(Hwf & _ & _ & Hlen) _].
    destruct (init_items_status _ _ _ _ _ _ _ _ _ _ Hitems) as [->| ->];
      simpl in Hrun; [discriminate|].
    rewrite clear_and_fail_wf in Hrun
      by (apply bitmap_wf_branch; split; [lia|exact Hwf]).
    now injection Hrun as <- _. }
  split; [exact Hb|]. intros Hne t2 n2 g. apply bitmap_init_not_zero.
  subst b'. destruct (mul64 nitems (Z.of_nat (length types))); [lia|reflexivity..].
Qed.

End BuilderMore.

Lemma empty_product_build_witness :
  bitmap_init always_grant (Tuple false true [optional_scalar; plain_scalar])
              0 zero_bitmap empty_heap =
  if always_grant (requests empty_heap) then
    (Returns 0, Bitmap None 0 (Some (fresh (live empty_heap), [])),
     Heap ({[fresh (live empty_heap)]} ∪ live empty_heap)
          (S (requests empty_heap)) (refused empty_heap))
  else
    (Returns (-1), zero_bitmap,
     Heap (live empty_heap) (S (requests empty_heap)) (S (refused empty_heap))).
Proof.
  apply (empty_product_build always_grant false [optional_scalar; plain_scalar] 0
                             empty_heap).
  left. reflexivity.
Defined.


Lemma xnd_bitmap_clear_frees_owned_witness :
  exists h1,
    xnd_bitmap_clear (snd (fst plain_pair_run)) (snd plain_pair_run) =
      (Returns tt, Bitmap None (size (snd (fst plain_pair_run))) None, h1) /\
    live h1 = live (snd plain_pair_run) ∖ owned (snd (fst plain_pair_run)) /\
    (stdpp.base.size (live h1) + length (owned_addrs (snd (fst plain_pair_run))))%nat =
      stdpp.base.size (live (snd plain_pair_run)) /\
    requests h1 = requests (snd plain_pair_run) /\
    refused h1 = refused (snd plain_pair_run) /\
    xnd_bitmap_clear (Bitmap None (size (snd (fst plain_pair_run))) None) h1 =
      (Returns tt, Bitmap None (size (snd (fst plain_pair_run))) None, h1).
Proof.
  apply (xnd_bitmap_clear_frees_owned (snd (fst plain_pair_run)) (snd plain_pair_run)).
  - vm_compute. repeat split.
  - apply (bool_decide_unpack _). vm_compute. exact I.
  - apply (bool_decide_unpack _). vm_compute. exact I.
Defined.

Lemma failed_product_keeps_size_witness :
  snd (fst failed_pair_run) =
    Bitmap None (mul64 2 (Z.of_nat (length [optional_scalar; plain_scalar]))) None /\
  (mul64 2 (Z.of_nat (length [optional_scalar; plain_scalar])) <> 0 ->
   forall t2 n2 g,
     bitmap_init (refuse_at 2) t2 n2 (snd (fst failed_pair_run)) g =
       (Undefined, snd (fst failed_pair_run), g)).
Proof.
  apply (failed_product_keeps_size (refuse_at 2) false
           [optional_scalar; plain_scalar] 2 empty_heap _ (snd failed_pair_run)).
  - reflexivity.
  - vm_compute. discriminate.
  - vm_compute. reflexivity.
Defined.

Lemma product_field_children_witness :
  exists p kids,
    next (snd (fst plain_pair_run)) = Some (p, kids) /\
    forall rep field ty,
      0 <= rep < 2 -> [optional_scalar; plain_scalar] !! field = Some ty ->
      ndt_subtree_is_optional ty = false ->
      exists c,
        kids !! Z.to_nat (rep * Z.of_nat (length [optional_scalar; plain_scalar])
                          + Z.of_nat field) = Some c /\
        if (ndim ty =? 0) && ndt_is_optional ty
        then exists q, c = Bitmap (Some (q, [0])) 0 None
        else c = zero_bitmap.
Proof.
  apply (product_field_children always_grant false false
           [optional_scalar; plain_scalar] 2 empty_heap _ (snd plain_pair_run)).
  - lia.
  - vm_compute. reflexivity.
Defined.

Lemma dims_leaf_covers_witness :
  exists p,
    snd (fst fixed3_run) =
      Bitmap (Some (p, replicate
                         (Z.to_nat (ceil_div8 (dims_count [Fixed false 3] 1))) 0))
             0 None /\
    forall i, 0 <= i < dims_count [Fixed false 3] 1 ->
      covered (snd (fst fixed3_run)) i /\
      xnd_is_valid (Xnd (snd (fst fixed3_run)) i (Other true false)) = Returns 0 /\
      xnd_is_na (Xnd (snd (fst fixed3_run)) i (Other true false)) = Returns 1.
Proof.
  apply (dims_leaf_covers always_grant [Fixed false 3] false 1 empty_heap _
                          (snd fixed3_run)).
  - vm_compute. split; discriminate.
  - vm_compute. reflexivity.
Defined.

Lemma dims_delegation_witness :
  bitmap_init always_grant (dims_type [Fixed false 2; Fixed false 3] optional_scalar)
              1 zero_bitmap empty_heap =
    bitmap_init always_grant optional_scalar (fold_left Z.mul [2; 3] 1)
                zero_bitmap empty_heap.
Proof.
  apply (proj2 (dims_delegation always_grant [] optional_scalar 1
                                zero_bitmap empty_heap) [2; 3]).
  intros [|[|[|k]]]; vm_compute; split; discriminate.
Defined.
